(** * NEther daily journal: the synchronisation engine of [daily_journal_win.py]

    A shallow embedding of class [NetworkJournal] (the in-memory entry map,
    its on-disk mirror under [data/], the lock, the merge performed by
    [background_sync]) and of the id generation of
    [JournalUI.create_new_entry], followed by the properties of the
    synchronisation engine.

    Conventions of the embedding.
    - A journal entry is a JSON object; it is a finite map from field names
      to JSON scalars.  [self.entries] maps ids to entries.
    - The dictionary decoded from a server response is kept as the list of
      its items in iteration order, because [background_sync] walks it in
      that order and may stop half way.
    - The directory [data/] is a finite map from file names to file
      contents; a file either decodes to an entry or does not decode.
    - Every network call receives the answer of the network as an argument.
    - A method is a function from the state of the object to an outcome
      (normal return or exception) and the state it leaves behind; a
      raised exception keeps the mutations made before it.

    What the embedding takes for granted.
    - The body of a 200 answer to [GET /entries] decodes to a dict
      ([get_entries] of [server.py] sends [jsonify] of a dict) whose values
      are JSON objects, as the entries this program posts are.
    - Ids are plain file names: [os.path.join(self.data_dir, f"{id}.json")]
      names a file directly under [data/].
    - A write that fails fails when the file is opened, and leaves the file
      as it was.
    - One thread runs at a time: [with self.sync_lock] finds the lock free.
      The state records, for every mutation of [self.entries], whether the
      lock was held by the method that made it. *)

From Stdlib Require Import Ascii String.
From stdpp Require Import base option list gmap strings pretty fin_maps sorting.

(** ** Data *)

Inductive jval :=
  | JNull
  | JBool (b : bool)
  | JNum (n : Z)
  | JStr (s : string).

Abbreviation entry := (gmap string jval).

(** [response.json()] of [GET /entries]: the items of the decoded dict. *)
Abbreviation pydict := (list (string * entry)).

(** What [json.load] makes of a file of [data/]. *)
Inductive blob :=
  | Json (e : entry)
  | Garbage.

(** Answer of the network to one [requests] call. [Unreachable] stands for
    the call raising [requests.RequestException] (time-out, refused
    connection). *)
Inductive reply (A : Type) :=
  | Unreachable
  | Response (status_code : Z) (json : A).
Arguments Unreachable {A}.
Arguments Response {A} status_code json.

Inductive exn :=
  | RequestException
  | OSError
  | TypeError
  | ValueError.

Inductive outcome (A : Type) :=
  | Ret (a : A)
  | Raise (e : exn).
Arguments Ret {A} a.
Arguments Raise {A} e.

(** Lines written by the two [print] calls. *)
Inductive diag :=
  | ErrorLoading (filename : string)
  | ErrorCaching (filename : string).

(** ** [datetime]

    [datetime.fromisoformat] and [>] on [datetime] belong to the Python
    library.  The engine only needs: parsing may fail ([ValueError]),
    comparing an offset-naive with an offset-aware value fails
    ([TypeError]), and no value is later than itself. *)
Class DateTime := {
  datetime : Type;
  fromisoformat : string → option datetime;
  dt_gt : datetime → datetime → option bool;
  dt_gt_irrefl : ∀ t, dt_gt t t = Some false
}.

(** ** State of a [NetworkJournal] *)

Record journal := Journal {
  entries : gmap string entry;   (* self.entries *)
  files : gmap string blob;      (* files of self.data_dir, by name *)
  denied : gset string;          (* names that cannot be written or removed *)
  sync_lock : bool;              (* self.sync_lock is held *)
  stdout : list diag;            (* printed diagnostics, oldest first *)
  mutations : list bool          (* one item per mutation of self.entries:
                                    was sync_lock held? oldest first *)
}.

Definition set_entries (f : gmap string entry → gmap string entry)
    (st : journal) : journal :=
  Journal (f (entries st)) (files st) (denied st) (sync_lock st) (stdout st)
          (mutations st ++ [sync_lock st]).

Definition set_files (f : gmap string blob → gmap string blob)
    (st : journal) : journal :=
  Journal (entries st) (f (files st)) (denied st) (sync_lock st) (stdout st)
          (mutations st).

Definition set_sync_lock (b : bool) (st : journal) : journal :=
  Journal (entries st) (files st) (denied st) b (stdout st) (mutations st).

Definition add_stdout (d : diag) (st : journal) : journal :=
  Journal (entries st) (files st) (denied st) (sync_lock st) (stdout st ++ [d])
          (mutations st).

(** ** The monad of methods *)

Definition M (A : Type) : Type := journal → outcome A * journal.

Global Instance M_ret : MRet M := λ A a st, (Ret a, st).
Global Instance M_bind : MBind M := λ A B f m st,
  match m st with
  | (Ret a, st') => f a st'
  | (Raise e, st') => (Raise e, st')
  end.

Definition raise {A} (e : exn) : M A := λ st, (Raise e, st).

(** An expression that does not touch the object. *)
Definition lift {A} (o : outcome A) : M A := λ st, (o, st).

(** [try: body except <caught>: handler] *)
Definition try_except {A} (body : M A) (caught : exn → bool) (handler : M A)
    : M A := λ st,
  match body st with
  | (Ret a, st') => (Ret a, st')
  | (Raise e, st') => if caught e then handler st' else (Raise e, st')
  end.

Definition is_RequestException (e : exn) : bool :=
  match e with RequestException => true | _ => false end.

(** [except Exception] *)
Definition is_Exception (e : exn) : bool := true.

(** [with self.sync_lock: body]; the lock is released on every exit. *)
Definition with_sync_lock {A} (body : M A) : M A := λ st,
  let '(r, st') := body (set_sync_lock true st) in
  (r, set_sync_lock false st').

(** [for x in l: body x] *)
Fixpoint for_each {A} (l : list A) (body : A → M ()) : M () :=
  match l with
  | [] => mret ()
  | x :: l' => body x ;; for_each l' body
  end.

(** *** Primitive actions *)

Definition get_entries : M (gmap string entry) := λ st, (Ret (entries st), st).

(** [self.entries = d] *)
Definition assign_entries (d : gmap string entry) : M () := λ st,
  (Ret (), set_entries (λ _, d) st).

(** [self.entries[k] = v] *)
Definition setitem (k : string) (v : entry) : M () := λ st,
  (Ret (), set_entries (<[k := v]>) st).

(** [del self.entries[k]] *)
Definition delitem (k : string) : M () := λ st,
  (Ret (), set_entries (delete k) st).

Definition print (d : diag) : M () := λ st, (Ret (), add_stdout d st).

(** [os.listdir(self.data_dir)] *)
Definition listdir : M (list string) := λ st,
  (Ret ((map_to_list (files st)).*1), st).

(** [with open(p, 'w') as f: json.dump(content, f, ...)] *)
Definition dump_file (filename : string) (content : entry) : M () := λ st,
  if decide (filename ∈ denied st) then (Raise OSError, st)
  else (Ret (), set_files (<[filename := Json content]>) st).

(** [os.path.exists(p)] *)
Definition path_exists (filename : string) : M bool := λ st,
  (Ret (bool_decide (is_Some (files st !! filename))), st).

(** [os.remove(p)] *)
Definition os_remove (filename : string) : M () := λ st,
  if decide (filename ∈ denied st) then (Raise OSError, st)
  else (Ret (), set_files (delete filename) st).

(** [requests.get], [requests.post], [requests.delete] with [timeout=2] *)
Definition requests_call {A} (r : reply A) : M (Z * A) :=
  match r with
  | Unreachable => raise RequestException
  | Response c b => mret (c, b)
  end.

(** ** File names

    [filename.endswith(suffix)] and [filename[:-n]]. *)
Fixpoint endswith (s suffix : string) : bool :=
  if String.eqb s suffix then true
  else match s with
       | "" => false
       | String _ s' => endswith s' suffix
       end.

Definition drop_last (s : string) (n : nat) : string :=
  String.substring 0 (String.length s - n) s.

(** [f"{date_str}.json"] *)
Definition json_name (date_str : string) : string := date_str +:+ ".json".

(** ** Methods of [NetworkJournal] *)

(** [with open(p, 'r') as f: json.load(f)] *)
Definition load_file (filename : string) : M entry := λ st,
  match files st !! filename with
  | Some (Json e) => (Ret e, st)
  | Some Garbage => (Raise ValueError, st)
  | None => (Raise OSError, st)
  end.

(** Body of the loop of [update_local_cache]. *)
Definition cache_item (item : string * entry) : M () :=
  let '(date_str, content) := item in
  let filename := json_name date_str in
  try_except (dump_file filename content)
    is_Exception (print (ErrorCaching filename)).

Definition update_local_cache : M () :=
  es ← get_entries;
  for_each (map_to_list es) cache_item.

(** Body of the loop over [os.listdir] in [load_entries]. *)
Definition load_item (filename : string) : M () :=
  if endswith filename ".json" then
    let date_str := drop_last filename 5 in
    try_except (e ← load_file filename; setitem date_str e)
      is_Exception (print (ErrorLoading filename))
  else mret ().

(** The second half of [load_entries]; [os.path.exists(self.data_dir)]
    holds since [ensure_data_directory]. *)
Definition load_from_cache : M () :=
  assign_entries ∅;;
  listing ← listdir;
  for_each listing load_item.

(** [load_entries]; the boolean of the first block tells whether the
    [return] inside the [try] was reached. *)
Definition load_entries (resp : reply pydict) : M () :=
  returned ← try_except
    (response ← requests_call resp;
     if bool_decide (response.1 = 200%Z) then
       assign_entries (list_to_map response.2);;
       update_local_cache;;
       mret true
     else mret false)
    is_RequestException (mret false);
  if returned : bool then mret () else load_from_cache.

Definition save_entry (date_str : string) (content : entry)
    (post : reply ()) : M () :=
  with_sync_lock (
    setitem date_str content;;
    try_except (requests_call post;; mret ())
      is_RequestException (mret ());;
    dump_file (json_name date_str) content).

Definition delete_entry (date_str : string) (del : reply ()) : M () :=
  with_sync_lock (
    es ← get_entries;
    (if bool_decide (is_Some (es !! date_str))
     then delitem date_str else mret ());;
    try_except (requests_call del;; mret ())
      is_RequestException (mret ());;
    let filename := json_name date_str in
    present ← path_exists filename;
    if present : bool then os_remove filename else mret ()).

Section background_sync.
Context `{DateTime}.

(** [datetime.fromisoformat(content['updated_at'])] *)
Definition updated_at_time (content : entry) : outcome datetime :=
  match content !! "updated_at" with
  | Some (JStr s) =>
      match fromisoformat s with
      | Some t => Ret t
      | None => Raise ValueError
      end
  | _ => Raise TypeError
  end.

(** [a > b] *)
Definition later (a b : datetime) : outcome bool :=
  match dt_gt a b with
  | Some r => Ret r
  | None => Raise TypeError
  end.

(** Body of the loop over [server_entries.items()]. *)
Definition merge_item (item : string * entry) : M () :=
  let '(date_str, content) := item in
  es ← get_entries;
  match es !! date_str with
  | None => setitem date_str content
  | Some local =>
      if bool_decide (is_Some (content !! "updated_at"))
         && bool_decide (is_Some (local !! "updated_at"))
      then
        server_time ← lift (updated_at_time content);
        local_time ← lift (updated_at_time local);
        newer ← lift (later server_time local_time);
        if newer : bool then setitem date_str content else mret ()
      else mret ()
  end.

(** The critical section of [background_sync]. *)
Definition reconcile (server_entries : pydict) : M () :=
  for_each server_entries merge_item;;
  update_local_cache.

(** One turn of the [while True] loop of [background_sync], after
    [time.sleep(10)]. *)
Definition sync_cycle (resp : reply pydict) : M () :=
  try_except
    (response ← requests_call resp;
     if bool_decide (response.1 = 200%Z)
     then with_sync_lock (reconcile response.2)
     else mret ())
    is_Exception (mret ()).

(** [background_sync], as far as the answers [resps] of the server reach:
    one turn of the loop for each answer, in order.  (The thread never
    returns; it ends with the process.) *)
Definition background_sync (resps : list (reply pydict)) : M () :=
  for_each resps sync_cycle.
End background_sync.

(** ** [JournalUI.create_new_entry]

    The list widget, the selection index and the switch to edit mode are
    presentation and are left out; the method is given the three readings
    of the clock it makes and returns the id it chose. *)

(** The [while date_str in self.journal.entries] loop. [fuel] bounds the
    number of tests of the loop condition; [None] means that the bound was
    reached. *)
Fixpoint free_id (fuel : nat) (es : gmap string entry) (base_date : string)
    (counter : nat) (date_str : string) : option string :=
  match fuel with
  | 0 => None
  | S fuel' =>
      if bool_decide (is_Some (es !! date_str))
      then free_id fuel' es base_date (S counter)
             (base_date +:+ "_" +:+ pretty counter)
      else Some date_str
  end.

(** [{'content': '', 'created_at': ..., 'updated_at': ...}] *)
Definition empty_entry (created_at updated_at : string) : entry :=
  <["content" := JStr ""]>
    (<["created_at" := JStr created_at]>
       (<["updated_at" := JStr updated_at]> ∅)).

Definition create_new_entry (fuel : nat) (today created_at updated_at : string)
    (post : reply ()) : M (option string) :=
  es ← get_entries;
  match free_id fuel es today 1 today with
  | None => mret None
  | Some date_str =>
      save_entry date_str (empty_entry created_at updated_at) post;;
      mret (Some date_str)
  end.

(** ** A [DateTime] for offset-naive time stamps

    The strings [datetime.isoformat()] writes for an offset-naive value and
    [fromisoformat] reads back:
    [YYYY-MM-DD], optionally followed by one separator character and
    [HH], [HH:MM], [HH:MM:SS], [HH:MM:SS.fff] or [HH:MM:SS.ffffff].
    This is a fragment of what [fromisoformat] reads: a string with a UTC
    offset or [Z], with a fraction of another length, or in the basic
    format without separators is rejected here, while the library may read
    it.  The instance is only used on time stamps of the fragment (the
    ones [isoformat()] writes for an offset-naive value); the properties of
    the merge are stated for every [DateTime]. *)
Module NaiveIso.
Record t := mk {
  year : N; month : N; day : N;
  hour : N; minute : N; second : N; microsecond : N
}.

Definition digit (c : ascii) : option N :=
  let n := N_of_ascii c in
  if (48 <=? n)%N && (n <=? 57)%N then Some (n - 48)%N else None.

Fixpoint number (acc : N) (cs : list ascii) : option N :=
  match cs with
  | [] => Some acc
  | c :: cs' => d ← digit c; number (acc * 10 + d)%N cs'
  end.

Definition is_leap (y : N) : bool :=
  ((y mod 4 =? 0) && (negb (y mod 100 =? 0) || (y mod 400 =? 0)))%N.

Definition days_in_month (y m : N) : N :=
  match m with
  | 2 => if is_leap y then 29 else 28
  | 4 | 6 | 9 | 11 => 30
  | _ => 31
  end%N.

Definition parse_date (cs : list ascii) : option (N * N * N) :=
  match cs with
  | [y1; y2; y3; y4; "-"; m1; m2; "-"; d1; d2]%char =>
      y ← number 0 [y1; y2; y3; y4];
      m ← number 0 [m1; m2];
      d ← number 0 [d1; d2];
      if ((1 <=? y) && (1 <=? m) && (m <=? 12)
          && (1 <=? d) && (d <=? days_in_month y m))%N
      then Some (y, m, d) else None
  | _ => None
  end.

Definition parse_fraction (cs : list ascii) : option N :=
  match cs with
  | [_; _; _] => f ← number 0 cs; Some (f * 1000)%N
  | [_; _; _; _; _; _] => number 0 cs
  | _ => None
  end.

Definition parse_time (cs : list ascii) : option (N * N * N * N) :=
  '(h, mi, s, us) ←
    match cs with
    | [h1; h2] =>
        h ← number 0 [h1; h2]; Some (h, 0, 0, 0)%N
    | [h1; h2; ":"; m1; m2]%char =>
        h ← number 0 [h1; h2]; mi ← number 0 [m1; m2]; Some (h, mi, 0, 0)%N
    | (h1 :: h2 :: ":" :: m1 :: m2 :: ":" :: s1 :: s2 :: rest)%char =>
        h ← number 0 [h1; h2]; mi ← number 0 [m1; m2];
        s ← number 0 [s1; s2];
        match rest with
        | [] => Some (h, mi, s, 0%N)
        | ("." :: frac)%char => us ← parse_fraction frac; Some (h, mi, s, us)
        | _ => None
        end
    | _ => None
    end;
  if ((h <? 24) && (mi <? 60) && (s <? 60))%N
  then Some (h, mi, s, us) else None.

Definition parse (s : string) : option t :=
  let cs := String.list_ascii_of_string s in
  '(y, m, d) ← parse_date (take 10 cs);
  match drop 10 cs with
  | [] => Some (mk y m d 0 0 0 0)
  | _ :: time =>
      '(h, mi, sec, us) ← parse_time time;
      Some (mk y m d h mi sec us)
  end.

(** A rank that grows with the position on the time line (the fields are
    bounded, so this is the lexicographic order on them). *)
Definition ticks (x : t) : N :=
  ((((((year x * 13 + month x) * 32 + day x) * 24 + hour x) * 60
      + minute x) * 60 + second x) * 1000000 + microsecond x)%N.

Definition gt (a b : t) : option bool := Some (ticks b <? ticks a)%N.
End NaiveIso.

Definition naive_iso : DateTime :=
  {| datetime := NaiveIso.t;
     fromisoformat := NaiveIso.parse;
     dt_gt := NaiveIso.gt;
     dt_gt_irrefl := λ a, f_equal Some (N.ltb_irrefl (NaiveIso.ticks a)) |}.

(** ** Vocabulary of the statements *)

(** A journal with no entry in memory, an empty [data/] that accepts every
    write, the lock free. *)
Definition empty_journal : journal := Journal ∅ ∅ ∅ false [] [].

(** What [load_entries] and [background_sync] accept as fetched: the body
    of an answer with status 200. *)
Definition fetched {A} (resp : reply A) : option A :=
  match resp with
  | Response c b => if bool_decide (c = 200%Z) then Some b else None
  | Unreachable => None
  end.

(** A foreground call on the engine, with the answer of the network. *)
Inductive call :=
  | Save (date_str : string) (content : entry) (post : reply ())
  | Remove (date_str : string) (del : reply ()).

Definition run_call (c : call) : M () :=
  match c with
  | Save date_str content post => save_entry date_str content post
  | Remove date_str del => delete_entry date_str del
  end.

(** The id a call is about. *)
Definition call_id (c : call) : string :=
  match c with
  | Save date_str _ _ => date_str
  | Remove date_str _ => date_str
  end.

(** What a call asks [self.entries] to hold under its id. *)
Definition call_entry (c : call) : option entry :=
  match c with
  | Save _ content _ => Some content
  | Remove _ _ => None
  end.

(** The [k]-th id tried by [create_new_entry] on day [base_date]. *)
Definition candidate (base_date : string) (k : nat) : string :=
  match k with
  | 0 => base_date
  | S _ => base_date +:+ "_" +:+ pretty k
  end.

Section merge_vocabulary.
Context `{DateTime}.

(** The two time stamps can be read and compared. *)
Definition comparable (content local : entry) : bool :=
  match updated_at_time content, updated_at_time local with
  | Ret ts, Ret tl => bool_decide (is_Some (dt_gt ts tl))
  | _, _ => false
  end.

(** Every pair of time stamps that the merge of [server_entries] into
    [es] compares can be read and compared. *)
Definition well_dated (es : gmap string entry) (server_entries : pydict)
    : bool :=
  forallb (λ '(date_str, content),
    match es !! date_str with
    | None => true
    | Some local =>
        if bool_decide (is_Some (content !! "updated_at"))
           && bool_decide (is_Some (local !! "updated_at"))
        then comparable content local
        else true
    end) server_entries.

(** What one turn of the loop decides for an item, given the entry the
    journal holds under the same id: [Ret true] when it assigns the
    entry of the server, [Ret false] when it keeps the journal as it is. *)
Definition merge_choice (local : option entry) (content : entry)
    : outcome bool :=
  match local with
  | None => Ret true
  | Some local =>
      if bool_decide (is_Some (content !! "updated_at"))
         && bool_decide (is_Some (local !! "updated_at"))
      then
        match updated_at_time content with
        | Ret server_time =>
            match updated_at_time local with
            | Ret local_time => later server_time local_time
            | Raise e => Raise e
            end
        | Raise e => Raise e
        end
      else Ret false
  end.
End merge_vocabulary.

(** ** Sample data

    An entry with a content and a time stamp, an entry without time stamp,
    and a journal that holds the given entries, the lock free, in an empty
    [data/] that accepts every write. *)
Definition stamped (content updated_at : string) : entry :=
  <["content" := JStr content]> (<["updated_at" := JStr updated_at]> ∅).

Definition undated (content : string) : entry :=
  <["content" := JStr content]> ∅.

Definition holding (es : gmap string entry) : journal :=
  Journal es ∅ ∅ false [] [].

(** ** Relations between states

    [steady st st']: from [st] to [st'] the file permissions and the lock
    are as before, and every mutation of [self.entries] made in between was
    logged with the lock in the state it has in [st]. *)
Definition steady (st st' : journal) : Prop :=
  denied st' = denied st ∧ sync_lock st' = sync_lock st
  ∧ ∃ k, mutations st' = mutations st ++ replicate k (sync_lock st).

(** Memory and [data/] agree: the file of an id holds the entry of the id, and
    [data/] holds no other file. *)
Definition mirrored (st : journal) : Prop :=
  (∀ id, files st !! json_name id = Json <$> entries st !! id)
  ∧ (∀ f, endswith f ".json" = false → files st !! f = None).

(** * The server ([server.py])

    The handlers of the Flask application, over the files of [DATA_DIR].
    A handler takes what the route and the request give it and returns the
    status code and the body of its response, with the new state of the
    directory.  As for the journal, a file that cannot be read or decoded is
    [Garbage], a name that cannot be written or removed is in [denied], and
    the body of a [POST] is a JSON object, which is what the journal sends. *)

(** [jsonify(d)] for a dict of entries: with the defaults of Flask the keys
    of the object are written in sorted order, and this is the order in
    which [response.json()] rebuilds the dict in the journal. *)
Definition key_le (a b : string * entry) : Prop := String.le a.1 b.1.

Global Instance key_le_dec : RelDecision key_le :=
  λ a b, decide (String.le a.1 b.1).

Definition jsonify (d : gmap string entry) : pydict :=
  merge_sort key_le (map_to_list d).

Module Server.

Record store := Store {
  files : gmap string blob;      (* files of DATA_DIR, by name *)
  denied : gset string;          (* names that cannot be written or removed *)
  stdout : list diag             (* printed diagnostics, oldest first *)
}.

(** Bodies of the responses other than the dict of all entries. *)
Inductive payload :=
  | Object (o : entry)           (* jsonify(o) *)
  | Error (e : exn).             (* jsonify({"error": str(e)}) *)

Definition success : payload := Object {["status" := JStr "success"]}.

Definition not_found : payload :=
  Object {["error" := JStr "Entry not found"]}.

(** Body of the loop of [get_entries]: the local dict [entries] and the
    lines printed so far, before and after one file name. *)
Definition load_item (fs : gmap string blob)
    (acc : gmap string entry * list diag) (filename : string)
    : gmap string entry * list diag :=
  if endswith filename ".json" then
    let date_str := drop_last filename 5 in
    match fs !! filename with
    | Some (Json e) => (<[date_str := e]> acc.1, acc.2)
    | _ => (acc.1, acc.2 ++ [ErrorLoading filename])
    end
  else acc.

(** [GET /entries] *)
Definition get_entries (srv : store) : (Z * pydict) * store :=
  let loaded :=
    foldl (load_item (files srv)) (∅, []) (map_to_list (files srv)).*1 in
  ((200%Z, jsonify loaded.1),
   Store (files srv) (denied srv) (stdout srv ++ loaded.2)).

(** [GET /entries/<date_str>] *)
Definition get_entry (date_str : string) (srv : store)
    : (Z * payload) * store :=
  match files srv !! json_name date_str with
  | Some (Json e) => ((200%Z, Object e), srv)
  | Some Garbage => ((500%Z, Error ValueError), srv)
  | None => ((404%Z, not_found), srv)
  end.

(** [POST /entries/<date_str>] with the JSON body [content] *)
Definition save_entry (date_str : string) (content : entry) (srv : store)
    : (Z * payload) * store :=
  if decide (json_name date_str ∈ denied srv)
  then ((500%Z, Error OSError), srv)
  else ((200%Z, success),
        Store (<[json_name date_str := Json content]> (files srv))
              (denied srv) (stdout srv)).

(** [DELETE /entries/<date_str>] *)
Definition delete_entry (date_str : string) (srv : store)
    : (Z * payload) * store :=
  if bool_decide (is_Some (files srv !! json_name date_str)) then
    if decide (json_name date_str ∈ denied srv)
    then ((500%Z, Error OSError), srv)
    else ((200%Z, success),
          Store (delete (json_name date_str) (files srv))
                (denied srv) (stdout srv))
  else ((404%Z, not_found), srv).

End Server.

(** * Journal and server together

    A request of the journal either reaches the server and is answered
    ([Up]), or does not reach it ([Down]), or reaches it and is handled
    while the answer does not come back within the timeout ([ReplyLost]);
    in the last two cases [requests] raises. *)
Inductive link := Up | Down | ReplyLost.

Definition exchange {A} (lk : link)
    (handler : Server.store → (Z * A) * Server.store) (srv : Server.store)
    : reply A * Server.store :=
  match lk with
  | Up => (Response (handler srv).1.1 (handler srv).1.2, (handler srv).2)
  | Down => (Unreachable, srv)
  | ReplyLost => (Unreachable, (handler srv).2)
  end.

(** The journal does not look at the body of the answer to a [POST] or a
    [DELETE]. *)
Definition discard {A} (r : reply A) : reply () :=
  match r with
  | Unreachable => Unreachable
  | Response c _ => Response c ()
  end.

(** The methods of the journal against a server: outcome and journal,
    then the server. *)
Definition remote_save (lk : link) (date_str : string) (content : entry)
    (srv : Server.store) (st : journal)
    : (outcome () * journal) * Server.store :=
  let answer := exchange lk (Server.save_entry date_str content) srv in
  (save_entry date_str content (discard answer.1) st, answer.2).

Definition remote_delete (lk : link) (date_str : string)
    (srv : Server.store) (st : journal)
    : (outcome () * journal) * Server.store :=
  let answer := exchange lk (Server.delete_entry date_str) srv in
  (delete_entry date_str (discard answer.1) st, answer.2).

Definition remote_load (lk : link) (srv : Server.store) (st : journal)
    : (outcome () * journal) * Server.store :=
  let answer := exchange lk Server.get_entries srv in
  (load_entries answer.1 st, answer.2).

Definition remote_sync `{DateTime} (lk : link) (srv : Server.store)
    (st : journal) : (outcome () * journal) * Server.store :=
  let answer := exchange lk Server.get_entries srv in
  (sync_cycle answer.1 st, answer.2).

(** The loop of [background_sync] against a server, one link per cycle:
    whatever a cycle does, the next one runs. *)
Definition remote_background_sync `{DateTime} (lks : list link)
    (srv : Server.store) (st : journal)
    : (outcome () * journal) * Server.store :=
  foldl (λ w lk, remote_sync lk w.2 w.1.2) ((Ret (), st), srv) lks.

(** * The terminal interface ([JournalUI])

    The state of a [JournalUI] is its journal and the fields its methods
    read and write; of the text area only [text] and [read_only] are kept.
    Layout, styles and key bindings are presentation: an event below is a
    key with what the environment supplies to its handler (readings of the
    clock, answers of the network), or one turn of one of the two
    background loops.  A method runs to its end before the next event. *)
Definition str_ge (a b : string) : Prop := String.le b a.

Global Instance str_ge_dec : RelDecision str_ge :=
  λ a b, decide (String.le b a).

(** [sorted(d.keys(), reverse=True)] *)
Definition sorted_keys (d : gmap string entry) : list string :=
  merge_sort str_ge (map_to_list d).*1.

Definition newline : string := String (ascii_of_nat 10) "".

Module UI.

(** What a method can raise: an exception of the journal, or the
    [KeyError] of a subscript on [self.journal.entries], or the
    [IndexError] of a subscript on [self.entries_list], or the [TypeError]
    of the text area when it is given a text that is not a string. *)
Inductive raised :=
  | Exn (e : exn)
  | KeyError (key : string)
  | IndexError
  | TypeError.

Inductive result (A : Type) :=
  | Done (a : A)
  | Raised (e : raised)
  | Unfinished.                  (* the bound of a loop was reached *)
Arguments Done {A} a.
Arguments Raised {A} e.
Arguments Unfinished {A}.

Record t := Ui {
  journal : journal;             (* self.journal *)
  entries_list : list string;    (* self.entries_list *)
  selected_index : Z;            (* self.selected_index *)
  edit_mode : bool;              (* self.edit_mode *)
  status_message : string;       (* self.status_message *)
  text : jval;                   (* self.content_area.text *)
  read_only : bool               (* self.content_area.read_only *)
}.

Definition U (A : Type) : Type := t → result A * t.

Definition ret {A} (a : A) : U A := λ ui, (Done a, ui).

Definition bind {A B} (m : U A) (f : A → U B) : U B := λ ui,
  match m ui with
  | (Done a, ui') => f a ui'
  | (Raised e, ui') => (Raised e, ui')
  | (Unfinished, ui') => (Unfinished, ui')
  end.

Definition seq {A} (m : U ()) (k : U A) : U A := bind m (λ _, k).

(** A method of [self.journal]. *)
Definition call {A} (m : M A) : U A := λ ui,
  let update j :=
    Ui j (entries_list ui) (selected_index ui) (edit_mode ui)
       (status_message ui) (text ui) (read_only ui) in
  match m (journal ui) with
  | (Ret a, j) => (Done a, update j)
  | (Raise e, j) => (Raised (Exn e), update j)
  end.

(** Assignments to the fields. *)
Definition set_entries_list (l : list string) : U () := λ ui,
  (Done (), Ui (journal ui) l (selected_index ui) (edit_mode ui)
                (status_message ui) (text ui) (read_only ui)).

Definition set_selected_index (i : Z) : U () := λ ui,
  (Done (), Ui (journal ui) (entries_list ui) i (edit_mode ui)
                (status_message ui) (text ui) (read_only ui)).

Definition set_edit_mode (b : bool) : U () := λ ui,
  (Done (), Ui (journal ui) (entries_list ui) (selected_index ui) b
                (status_message ui) (text ui) (read_only ui)).

Definition set_status_message (s : string) : U () := λ ui,
  (Done (), Ui (journal ui) (entries_list ui) (selected_index ui)
                (edit_mode ui) s (text ui) (read_only ui)).

Definition set_text (v : jval) : U () := λ ui,
  (Done (), Ui (journal ui) (entries_list ui) (selected_index ui)
                (edit_mode ui) (status_message ui) v (read_only ui)).

Definition set_read_only (b : bool) : U () := λ ui,
  (Done (), Ui (journal ui) (entries_list ui) (selected_index ui)
                (edit_mode ui) (status_message ui) (text ui) b).

(** [l[i]], on a Python list *)
Definition getitem (l : list string) (i : Z) : result string :=
  let n := Z.of_nat (length l) in
  let k := if bool_decide (i < 0)%Z then (i + n)%Z else i in
  if bool_decide (0 ≤ k < n)%Z then
    match l !! Z.to_nat k with
    | Some x => Done x
    | None => Raised IndexError
    end
  else Raised IndexError.

(** [l.index(x)] *)
Definition index (l : list string) (x : string) : result Z :=
  match list_find (λ y, y = x) l with
  | Some (i, _) => Done (Z.of_nat i)
  | None => Raised (Exn ValueError)
  end.

(** [self.entries_list[self.selected_index]] *)
Definition selected : U string := λ ui,
  (getitem (entries_list ui) (selected_index ui), ui).

(** [self.journal.entries[date_str]] *)
Definition journal_entry (date_str : string) : U entry := λ ui,
  match entries (journal ui) !! date_str with
  | Some e => (Done e, ui)
  | None => (Raised (KeyError date_str), ui)
  end.

(** [self.entries_list = sorted(self.journal.entries.keys(), reverse=True)] *)
Definition list_entries : U () := λ ui,
  set_entries_list (sorted_keys (entries (journal ui))) ui.

(** [self.entries_list and 0 <= self.selected_index < len(self.entries_list)] *)
Definition in_range (ui : t) : bool :=
  bool_decide (entries_list ui ≠ [])
  && bool_decide
       (0 ≤ selected_index ui < Z.of_nat (length (entries_list ui)))%Z.

(** [e.get('content', '')] *)
Definition content_of (e : entry) : jval := default (JStr "") (e !! "content").

(** [isinstance(v, str)] *)
Definition is_text (v : jval) : bool :=
  match v with
  | JStr _ => true
  | _ => false
  end.

(** [self.content_area.text = v]: the setter builds [Document(v, 0)], which
    starts by taking [len(v)]; on a value that is not a string ([None], a
    boolean, a number) that is a [TypeError], raised before anything of
    the text area has changed. *)
Definition assign_text (v : jval) : U () := λ ui,
  if is_text v then set_text v ui else (Raised TypeError, ui).

Definition keys_help : string :=
  " | e:Edit | d:Delete | n:New | r:Refresh | q:Quit".

Definition no_entries : string :=
  "No entries available. Press 'n' to create a new entry.".

Definition load_current_entry : U () := λ ui,
  if in_range ui then
    bind selected (λ date_str,
    bind (journal_entry date_str) (λ e,
    seq (assign_text (content_of e))
   (seq (set_read_only true)
   (seq (set_edit_mode false)
        (set_status_message
           ("Viewing entry from " +:+ date_str +:+ keys_help)))))) ui
  else (Done (), ui).

Definition edit_current_entry : U () := λ ui,
  if in_range ui then
    bind selected (λ date_str,
    bind (journal_entry date_str) (λ e,
    seq (assign_text (content_of e))
   (seq (set_read_only false)
   (seq (set_edit_mode true)
        (set_status_message "Editing entry | Enter:Save | Esc:Cancel"))))) ui
  else (Done (), ui).

(** [entry_data = self.journal.entries.get(date_str, {})] followed by the
    two assignments to [entry_data].  When the journal holds the id,
    [entry_data] is the very dict held by [self.journal.entries], so each
    assignment changes the entry in the journal, the lock not being held;
    otherwise [entry_data] is a new dict.  The result is [entry_data]. *)
Definition fill_entry_data (date_str : string) (now : string) : U entry :=
  λ ui,
  match entries (journal ui) !! date_str with
  | Some e =>
      let e1 := <["content" := text ui]> e in
      let e2 := <["updated_at" := JStr now]> e1 in
      call (setitem date_str e1 ;; setitem date_str e2 ;; mret e2) ui
  | None =>
      (Done (<["updated_at" := JStr now]> (<["content" := text ui]> ∅)), ui)
  end.

Definition save_current_entry (now : string) (post : reply ()) : U () :=
  λ ui,
  if in_range ui then
    bind selected (λ date_str,
    bind (fill_entry_data date_str now) (λ entry_data,
    seq (call (save_entry date_str entry_data post))
   (seq (set_read_only true)
   (seq (set_edit_mode false)
        (set_status_message ("Entry saved" +:+ keys_help)))))) ui
  else (Done (), ui).

Definition cancel_edit : U () :=
  seq (set_edit_mode false) load_current_entry.

Definition delete_current_entry (del : reply ()) : U () := λ ui,
  if in_range ui then
    bind selected (λ date_str,
    seq (call (delete_entry date_str del))
   (seq list_entries (λ ui1,
      if bool_decide (entries_list ui1 ≠ []) then
        seq (set_selected_index
               (Z.min (selected_index ui1)
                      (Z.of_nat (length (entries_list ui1)) - 1)))
            load_current_entry ui1
      else
        seq (set_selected_index 0)
       (seq (assign_text (JStr ""))
            (set_status_message no_entries)) ui1))) ui
  else (Done (), ui).

Definition move_selection_up : U () := λ ui,
  if bool_decide (entries_list ui ≠ [])
     && bool_decide (selected_index ui > 0)%Z
  then seq (set_selected_index (selected_index ui - 1)) load_current_entry ui
  else (Done (), ui).

Definition move_selection_down : U () := λ ui,
  if bool_decide (entries_list ui ≠ [])
     && bool_decide
          (selected_index ui < Z.of_nat (length (entries_list ui)) - 1)%Z
  then seq (set_selected_index (selected_index ui + 1)) load_current_entry ui
  else (Done (), ui).

Definition manual_refresh (resp : reply pydict) : U () :=
  seq (set_status_message "Syncing with server...")
 (seq (call (load_entries resp))
 (seq list_entries
 (seq (set_status_message "Sync completed")
      (λ ui, if in_range ui then load_current_entry ui else (Done (), ui))))).

(** [create_new_entry]: the search for an id and the [save_entry] are
    [create_new_entry] above. *)
Definition create_new_entry (fuel : nat)
    (today created_at updated_at : string) (post : reply ()) : U () :=
  bind (call (create_new_entry fuel today created_at updated_at post))
    (λ chosen,
      match chosen with
      | None => λ ui, (Unfinished, ui)
      | Some date_str =>
          seq list_entries
         (bind (λ ui, (index (entries_list ui) date_str, ui)) (λ i,
          seq (set_selected_index i) edit_current_entry))
      end).

(** One turn of the loop of [refresh_entries_list]. *)
Definition refresh_entries_list : U () := λ ui,
  if bool_decide
       (list_to_set (entries_list ui) = dom (entries (journal ui)))
  then (Done (), ui)
  else list_entries ui.

(** [get_entries_text]: the lines of the left panel, with their style. *)
Definition get_entries_text (ui : t) : list (string * string) :=
  imap (λ i date_str,
          (if bool_decide (Z.of_nat i = selected_index ui)
           then "class:selected" else "",
           " " +:+ date_str +:+ " " +:+ newline))
       (entries_list ui)
  ++ (if bool_decide (entries_list ui = [])
      then [("", " No entries available. " +:+ newline)] else []).

(** [__init__]: the journal is made from what the directory holds and
    loads its entries; then the fields, and the first entry if there is
    one. *)
Definition init (disk : gmap string blob) (no_write : gset string)
    (resp : reply pydict) : result () * t :=
  let j := (load_entries resp (Journal ∅ disk no_write false [] [])).2 in
  let ui :=
    Ui j (sorted_keys (entries j)) 0 false
       "Welcome to Daily Journal (Network Sync Enabled)" (JStr "") true in
  if bool_decide (entries_list ui ≠ []) then load_current_entry ui
  else set_status_message no_entries ui.

(** What happens to a running interface.  Key [q] ends the application and
    is not an event. *)
Inductive event :=
  | Key_n (fuel : nat) (today created_at updated_at : string)
      (post : reply ())
  | Key_d (del : reply ())
  | Key_e
  | Key_r (resp : reply pydict)
  | Key_up
  | Key_down
  | Key_enter (now : string) (post : reply ())
  | Key_escape
  | Refresh                      (* a turn of refresh_entries_list *)
  | Sync (resp : reply pydict).  (* a cycle of journal.background_sync *)

Definition step `{DateTime} (ev : event) : U () :=
  match ev with
  | Key_n fuel today created_at updated_at post =>
      create_new_entry fuel today created_at updated_at post
  | Key_d del => delete_current_entry del
  | Key_e => edit_current_entry
  | Key_r resp => manual_refresh resp
  | Key_up => move_selection_up
  | Key_down => move_selection_down
  | Key_enter now post =>
      λ ui, if edit_mode ui then save_current_entry now post ui
            else load_current_entry ui
  | Key_escape =>
      λ ui, if edit_mode ui then cancel_edit ui else (Done (), ui)
  | Refresh => refresh_entries_list
  | Sync resp => call (sync_cycle resp)
  end.

(** The list on the screen names entries of the journal, and the index is
    not negative. *)
Definition consistent (ui : t) : Prop :=
  (∀ id, id ∈ entries_list ui → is_Some (entries (journal ui) !! id))
  ∧ (0 ≤ selected_index ui)%Z.

(** The list on the screen is the list of the ids of the journal. *)
Definition fresh (ui : t) : Prop :=
  entries_list ui = sorted_keys (entries (journal ui)).

(** Every entry has a content that the text area can show: a string, or
    no content at all. *)
Definition textual (es : gmap string entry) : Prop :=
  ∀ id e, es !! id = Some e → is_text (content_of e) = true.


(** The text area shows, read-only, the entry that the index selects. *)
Definition shows_selected (ui : t) : Prop :=
  ∃ date_str e,
    entries_list ui !! Z.to_nat (selected_index ui) = Some date_str
    ∧ entries (journal ui) !! date_str = Some e
    ∧ text ui = content_of e
    ∧ read_only ui = true
    ∧ edit_mode ui = false.

End UI.

(** ** Example states of the interface *)

(** A journal with its directory: the files hold the entries, and the
    files named in [no_write] can be neither written nor removed. *)
Definition stored (es : gmap string entry) (no_write : gset string)
    : journal :=
  Journal es (kmap json_name (Json <$> es)) no_write false [] [].

(** The interface showing, or editing, position [i] of list [l]. *)
Definition viewing (j : journal) (l : list string) (i : Z) : UI.t :=
  UI.Ui j l i false "" (JStr "") true.

Definition editing (j : journal) (l : list string) (i : Z) (typed : string)
    : UI.t :=
  UI.Ui j l i true "Editing entry | Enter:Save | Esc:Cancel" (JStr typed)
    false.

(** * Properties *)

(** ** File names *)

Section strings.
Implicit Types s p suffix : string.

Lemma app_nil_l s : "" +:+ s = s.
Proof. reflexivity. Qed.

Lemma app_cons a s1 s2 : String a s1 +:+ s2 = String a (s1 +:+ s2).
Proof. reflexivity. Qed.

Lemma endswith_refl s : endswith s s = true.
Proof. destruct s; cbn [endswith]; by rewrite String.eqb_refl. Qed.

Lemma endswith_app p suffix : endswith (p +:+ suffix) suffix = true.
Proof.
  induction p as [|a p IH].
  - apply endswith_refl.
  - rewrite app_cons. cbn [endswith]. rewrite IH. by destruct (String.eqb _ _).
Qed.

Lemma endswith_inv s suffix :
  endswith s suffix = true → ∃ p, s = p +:+ suffix.
Proof.
  induction s as [|a s IH]; cbn [endswith].
  - destruct (String.eqb "" suffix) eqn:E; [|done].
    apply String.eqb_eq in E as <-. by exists "".
  - destruct (String.eqb (String a s) suffix) eqn:E.
    + apply String.eqb_eq in E as <-. by exists "".
    + intros [p ->]%IH. by exists (String a p).
Qed.

Lemma length_app p s : String.length (p +:+ s) = String.length p + String.length s.
Proof. induction p; [done|]. rewrite app_cons. simpl. by f_equal. Qed.

Lemma substring_app p s : String.substring 0 (String.length p) (p +:+ s) = p.
Proof.
  induction p as [|a p IH].
  - by destruct s.
  - rewrite app_cons. cbn [String.length String.substring]. by f_equal.
Qed.

Lemma drop_last_app p suffix : drop_last (p +:+ suffix) (String.length suffix) = p.
Proof.
  unfold drop_last. rewrite length_app.
  replace (String.length p + String.length suffix - String.length suffix)
    with (String.length p) by lia.
  apply substring_app.
Qed.

Lemma drop_last_json_name date_str : drop_last (json_name date_str) 5 = date_str.
Proof. apply (drop_last_app date_str ".json"). Qed.

Lemma endswith_json_name date_str : endswith (json_name date_str) ".json" = true.
Proof. apply endswith_app. Qed.

Lemma endswith_json_inv filename :
  endswith filename ".json" = true → filename = json_name (drop_last filename 5).
Proof.
  intros [p ->]%endswith_inv. fold (json_name p).
  by rewrite drop_last_json_name.
Qed.

Lemma json_name_inj : Inj (=) (=) json_name.
Proof.
  intros s1 s2 E. rewrite <-(drop_last_json_name s1), <-(drop_last_json_name s2).
  by rewrite E.
Qed.
End strings.

(** ** Running the primitive blocks *)

Lemma bind_run {A B} (m : M A) (f : A → M B) st :
  (m ≫= f) st =
    match m st with
    | (Ret a, st') => f a st'
    | (Raise e, st') => (Raise e, st')
    end.
Proof. reflexivity. Qed.

Lemma for_each_cons {A} (x : A) l body st :
  for_each (x :: l) body st =
    match body x st with
    | (Ret _, st') => for_each l body st'
    | (Raise e, st') => (Raise e, st')
    end.
Proof. reflexivity. Qed.

Lemma for_each_app {A} (l1 l2 : list A) body st :
  for_each (l1 ++ l2) body st =
    match for_each l1 body st with
    | (Ret _, st') => for_each l2 body st'
    | (Raise e, st') => (Raise e, st')
    end.
Proof.
  revert st. induction l1 as [|x l1 IH]; intros st; [done|].
  rewrite <-app_comm_cons, !for_each_cons.
  destruct (body x st) as [[[]|e] st1]; [apply IH|done].
Qed.

Lemma save_entry_run date_str content post st :
  save_entry date_str content post st =
    let st1 := set_entries (<[date_str := content]>) (set_sync_lock true st) in
    if decide (json_name date_str ∈ denied st)
    then (Raise OSError, set_sync_lock false st1)
    else (Ret (),
          set_sync_lock false
            (set_files (<[json_name date_str := Json content]>) st1)).
Proof.
  unfold save_entry, with_sync_lock, mbind, M_bind, setitem, try_except,
    dump_file.
  destruct post; simpl; case_decide; reflexivity.
Qed.

Lemma delete_entry_run date_str del st :
  delete_entry date_str del st =
    let st0 := set_sync_lock true st in
    let st1 := if bool_decide (is_Some (entries st !! date_str))
               then set_entries (delete date_str) st0 else st0 in
    if bool_decide (is_Some (files st !! json_name date_str))
    then if decide (json_name date_str ∈ denied st)
         then (Raise OSError, set_sync_lock false st1)
         else (Ret (),
               set_sync_lock false (set_files (delete (json_name date_str)) st1))
    else (Ret (), set_sync_lock false st1).
Proof.
  unfold delete_entry, with_sync_lock, mbind, M_bind, get_entries, delitem,
    try_except, path_exists, os_remove.
  destruct del; simpl;
    destruct (bool_decide (is_Some (entries st !! date_str))); simpl;
    destruct (bool_decide (is_Some (files st !! json_name date_str))); simpl;
    try case_decide; done.
Qed.

Lemma cache_item_run date_str content st :
  cache_item (date_str, content) st =
    (Ret (),
     if decide (json_name date_str ∈ denied st)
     then add_stdout (ErrorCaching (json_name date_str)) st
     else set_files (<[json_name date_str := Json content]>) st).
Proof.
  unfold cache_item, try_except, dump_file. by case_decide.
Qed.

Lemma load_item_run filename st :
  load_item filename st =
    (Ret (),
     if endswith filename ".json" then
       match files st !! filename with
       | Some (Json e) => set_entries (<[drop_last filename 5 := e]>) st
       | _ => add_stdout (ErrorLoading filename) st
       end
     else st).
Proof.
  unfold load_item, try_except, load_file, mbind, M_bind, setitem.
  destruct (endswith filename ".json"); [|done].
  by destruct (files st !! filename) as [[]|].
Qed.

(** ** What a block leaves alone *)

Lemma steady_refl st : steady st st.
Proof. split_and!; [done..|]. exists 0. by rewrite app_nil_r. Qed.

Lemma steady_trans st1 st2 st3 : steady st1 st2 → steady st2 st3 → steady st1 st3.
Proof.
  intros (Hd1 & Hl1 & k1 & Hm1) (Hd2 & Hl2 & k2 & Hm2).
  split_and!; [congruence..|]. exists (k1 + k2).
  by rewrite Hm2, Hm1, Hl1, <-(assoc_L (++)), replicate_add.
Qed.

Lemma steady_set_entries f st : steady st (set_entries f st).
Proof. split_and!; [done..|]. by exists 1. Qed.

Lemma steady_set_files f st : steady st (set_files f st).
Proof. apply (steady_refl st). Qed.

Lemma steady_add_stdout d st : steady st (add_stdout d st).
Proof. apply (steady_refl st). Qed.

Create HintDb journal.
Global Hint Resolve steady_refl steady_set_entries steady_set_files
  steady_add_stdout : journal.

(** ** The loop of [load_entries] over the cache *)

Lemma load_loop (l : list string) st :
  ∃ st', for_each l load_item st = (Ret (), st')
    ∧ files st' = files st ∧ steady st st'
    ∧ ∀ id, entries st' !! id =
        if decide (json_name id ∈ l) then
          match files st !! json_name id with
          | Some (Json e) => Some e
          | _ => entries st !! id
          end
        else entries st !! id.
Proof.
  revert st. induction l as [|filename l IH]; intros st.
  { exists st. split_and!; auto with journal. }
  rewrite for_each_cons, load_item_run.
  set (st1 := if endswith filename ".json" then _ else st).
  assert (files st1 = files st) as Hfiles.
  { unfold st1. destruct (endswith _ _); [|done].
    by destruct (files st !! filename) as [[]|]. }
  assert (steady st st1) as Hsteady.
  { unfold st1. destruct (endswith _ _); [|auto with journal].
    destruct (files st !! filename) as [[]|]; auto with journal. }
  destruct (IH st1) as (st' & -> & Hf & Hs & Hent).
  exists st'. split_and!; [done|congruence|by eapply steady_trans|].
  intros id. rewrite Hent, Hfiles.
  assert (entries st1 !! id =
    if decide (filename = json_name id) then
      match files st !! json_name id with
      | Some (Json e) => Some e
      | _ => entries st !! id
      end
    else entries st !! id) as ->.
  { unfold st1. case_decide as Heq.
    - subst filename. rewrite endswith_json_name, drop_last_json_name.
      destruct (files st !! json_name id) as [[]|]; simpl; [|done..].
      by rewrite lookup_insert_eq.
    - destruct (endswith filename ".json") eqn:Hend; [|done].
      destruct (files st !! filename) as [[]|]; simpl; [|done..].
      rewrite lookup_insert_ne; [done|].
      intros <-. by apply Heq, endswith_json_inv. }
  destruct (decide (filename = json_name id)) as [->|Hne].
  - rewrite (decide_True (P := json_name id ∈ json_name id :: l))
      by apply list_elem_of_here.
    case_decide; [|done]. by destruct (files st !! json_name id) as [[]|].
  - destruct (decide (json_name id ∈ l)) as [Hin|Hin].
    + by rewrite decide_True by by apply list_elem_of_further.
    + rewrite decide_False; [done|].
      intros [?|?]%elem_of_cons; congruence.
Qed.

Lemma load_from_cache_run st :
  ∃ st', load_from_cache st = (Ret (), st')
    ∧ files st' = files st
    ∧ denied st' = denied st ∧ sync_lock st' = sync_lock st
    ∧ (∃ k, mutations st' = mutations st ++ replicate (S k) (sync_lock st))
    ∧ ∀ id, entries st' !! id =
        match files st !! json_name id with
        | Some (Json e) => Some e
        | _ => None
        end.
Proof.
  change (load_from_cache st) with
    (for_each (map_to_list (files st)).*1 load_item (set_entries (λ _, ∅) st)).
  destruct (load_loop (map_to_list (files st)).*1 (set_entries (λ _, ∅) st))
    as (st' & -> & Hf & (Hd & Hl & k & Hm) & Hent).
  exists st'. split_and!; [done..| |].
  - exists k. simpl in Hm. by rewrite Hm, <-(assoc_L (++)).
  - intros id. rewrite Hent. simpl. rewrite lookup_empty.
    case_decide as Hin; [done|].
    destruct (files st !! json_name id) as [b|] eqn:Hb; [|done].
    destruct Hin. apply list_elem_of_fmap. exists (json_name id, b).
    split; [done|]. by apply elem_of_map_to_list.
Qed.

(** ** The loop of [update_local_cache] *)

Lemma cache_loop (l : pydict) st :
  ∃ st', for_each l cache_item st = (Ret (), st')
    ∧ entries st' = entries st ∧ denied st' = denied st
    ∧ sync_lock st' = sync_lock st ∧ mutations st' = mutations st
    ∧ (∀ f, f ∉ json_name <$> l.*1 → files st' !! f = files st !! f)
    ∧ (∀ f, f ∈ denied st → files st' !! f = files st !! f)
    ∧ (NoDup l.*1 → ∀ id e, (id, e) ∈ l → json_name id ∉ denied st →
         files st' !! json_name id = Some (Json e)).
Proof.
  revert st. induction l as [|[id0 e0] l IH]; intros st.
  { exists st. split_and!; try done. intros _ id e Hin.
    by apply elem_of_nil in Hin. }
  rewrite for_each_cons, cache_item_run.
  set (st1 := if decide (json_name id0 ∈ denied st) then _ else _).
  assert (entries st1 = entries st ∧ denied st1 = denied st
          ∧ sync_lock st1 = sync_lock st ∧ mutations st1 = mutations st)
    as (He1 & Hd1 & Hl1 & Hm1) by (unfold st1; by case_decide).
  assert (∀ f, f ≠ json_name id0 → files st1 !! f = files st !! f) as Hne1.
  { intros f Hf. unfold st1. case_decide; [done|]. simpl.
    by rewrite lookup_insert_ne. }
  destruct (IH st1) as (st' & -> & He & Hd & Hl & Hm & Hframe & Hden & Hwr).
  exists st'. split_and!; try congruence.
  - intros f Hf. simpl in Hf. apply not_elem_of_cons in Hf as [Hf1 Hf2].
    rewrite Hframe by done. by apply Hne1.
  - intros f Hf. rewrite Hden by congruence.
    unfold st1. case_decide; [done|]. simpl.
    rewrite lookup_insert_ne; [done|]. by intros <-.
  - intros Hnd id e Hin Hok. simpl in Hnd. apply NoDup_cons in Hnd as [Hhd Hnd].
    apply elem_of_cons in Hin as [[= -> ->]|Hin].
    + rewrite Hframe.
      * unfold st1. rewrite decide_False by done. simpl.
        by rewrite lookup_insert_eq.
      * intros (id' & Heq%json_name_inj & Hin')%list_elem_of_fmap.
        by subst id'.
    + apply Hwr; [done..|]. by rewrite Hd1.
Qed.

Lemma update_local_cache_run st :
  ∃ st', update_local_cache st = (Ret (), st')
    ∧ entries st' = entries st ∧ denied st' = denied st
    ∧ sync_lock st' = sync_lock st ∧ mutations st' = mutations st
    ∧ (∀ f, (∀ id, is_Some (entries st !! id) → f ≠ json_name id) →
         files st' !! f = files st !! f)
    ∧ (∀ f, f ∈ denied st → files st' !! f = files st !! f)
    ∧ (∀ id e, entries st !! id = Some e → json_name id ∉ denied st →
         files st' !! json_name id = Some (Json e)).
Proof.
  change (update_local_cache st) with
    (for_each (map_to_list (entries st)) cache_item st).
  destruct (cache_loop (map_to_list (entries st)) st)
    as (st' & -> & He & Hd & Hl & Hm & Hframe & Hden & Hwr).
  exists st'. split_and!; try done.
  - intros f Hf. apply Hframe.
    intros (id & -> & [[id' e] [[= <-] Hin]]%list_elem_of_fmap)%list_elem_of_fmap.
    apply elem_of_map_to_list in Hin. by eapply Hf.
  - intros id e Hid Hok. apply Hwr; [|by apply elem_of_map_to_list|done].
    apply NoDup_fst_map_to_list.
Qed.

(** ** [load_entries], by the answer of the server *)

Lemma load_entries_unavailable resp st :
  fetched resp = None → load_entries resp st = load_from_cache st.
Proof.
  unfold load_entries, fetched. rewrite bind_run. unfold try_except.
  destruct resp as [|c body]; [done|]. simpl. rewrite bind_run. simpl.
  by case_bool_decide.
Qed.

Lemma load_entries_fetched resp body st :
  fetched resp = Some body →
  load_entries resp st =
    update_local_cache (set_entries (λ _, list_to_map body) st).
Proof.
  unfold load_entries, fetched. rewrite bind_run. unfold try_except.
  destruct resp as [|c body']; [done|]. simpl. rewrite bind_run. simpl.
  case_bool_decide; [|done]. intros [= ->].
  unfold assign_entries. rewrite !bind_run.
  by destruct (update_local_cache_run
    (set_entries (λ _, list_to_map body) st)) as (st' & -> & _).
Qed.

(** ** Memory and mirror in step *)

Lemma mirrored_empty : mirrored empty_journal.
Proof. split; intros; simpl; by rewrite ?lookup_empty. Qed.

Lemma endswith_json_name_ne f id :
  endswith f ".json" = false → f ≠ json_name id.
Proof. intros Hf ->. by rewrite endswith_json_name in Hf. Qed.

Lemma save_entry_mirrored date_str content post st :
  mirrored st → denied st = ∅ →
  ∃ st', save_entry date_str content post st = (Ret (), st')
    ∧ mirrored st' ∧ denied st' = ∅.
Proof.
  intros [Hm1 Hm2] Hd. rewrite save_entry_run. simpl.
  rewrite decide_False by (rewrite Hd; apply not_elem_of_empty).
  eexists. split; [done|]. split; [split|done]; simpl.
  - intros id. destruct (decide (id = date_str)) as [->|Hne].
    + by rewrite !lookup_insert_eq.
    + rewrite !lookup_insert_ne; [done|congruence|].
      by intros ?%json_name_inj.
  - intros f Hf. rewrite lookup_insert_ne; [by apply Hm2|].
    apply not_eq_sym. by apply endswith_json_name_ne.
Qed.

Lemma delete_entry_mirrored date_str del st :
  mirrored st → denied st = ∅ →
  ∃ st', delete_entry date_str del st = (Ret (), st')
    ∧ mirrored st' ∧ denied st' = ∅.
Proof.
  intros [Hm1 Hm2] Hd. rewrite delete_entry_run. simpl.
  rewrite decide_False by (rewrite Hd; apply not_elem_of_empty).
  pose proof (Hm1 date_str) as Hid.
  destruct (entries st !! date_str) as [e|] eqn:He; simpl in Hid.
  - rewrite !bool_decide_eq_true_2 by (by rewrite ?Hid). simpl.
    eexists. split; [done|]. split; [split|done]; simpl.
    + intros id. destruct (decide (id = date_str)) as [->|Hne].
      * by rewrite !lookup_delete_eq.
      * rewrite !lookup_delete_ne; [done|congruence|].
        by intros ?%json_name_inj.
    + intros f Hf. rewrite lookup_delete_ne; [by apply Hm2|].
      apply not_eq_sym. by apply endswith_json_name_ne.
  - rewrite !bool_decide_eq_false_2
      by (rewrite ?Hid; by intros [? [=]]). simpl.
    eexists. split; [done|]. by split.
Qed.

Lemma run_calls_mirrored calls st :
  mirrored st → denied st = ∅ →
  ∃ st', for_each calls run_call st = (Ret (), st')
    ∧ mirrored st' ∧ denied st' = ∅.
Proof.
  revert st. induction calls as [|c calls IH]; intros st Hm Hd.
  { by exists st. }
  rewrite for_each_cons.
  assert (∃ st1, run_call c st = (Ret (), st1) ∧ mirrored st1
                 ∧ denied st1 = ∅) as (st1 & -> & Hm1 & Hd1).
  { destruct c; simpl;
      [by apply save_entry_mirrored|by apply delete_entry_mirrored]. }
  by apply IH.
Qed.

Lemma mirrored_load_from_cache st :
  mirrored st → entries (load_from_cache st).2 = entries st.
Proof.
  intros [Hm1 _].
  destruct (load_from_cache_run st) as (st' & -> & _ & _ & _ & _ & Hent).
  apply map_eq. intros id. simpl. rewrite Hent, Hm1.
  by destruct (entries st !! id).
Qed.

(** ** The merge loop of [background_sync] *)

Section merge.
Context `{DateTime}.

Lemma merge_item_run id content st :
  merge_item (id, content) st =
    match merge_choice (entries st !! id) content with
    | Ret true => (Ret (), set_entries (<[id := content]>) st)
    | Ret false => (Ret (), st)
    | Raise e => (Raise e, st)
    end.
Proof.
  unfold merge_item, merge_choice. rewrite bind_run. simpl.
  destruct (entries st !! id) as [local|]; [|done].
  destruct (_ && _); [|done].
  rewrite bind_run. unfold lift at 1.
  destruct (updated_at_time content) as [ts|e]; [|done].
  rewrite bind_run. unfold lift at 1.
  destruct (updated_at_time local) as [tl|e]; [|done].
  rewrite bind_run. unfold lift.
  by destruct (later ts tl) as [[]|e].
Qed.

Lemma comparable_choice local content :
  comparable content local = true →
  ∃ b, merge_choice (Some local) content = Ret b.
Proof.
  unfold comparable, merge_choice, later.
  destruct (updated_at_time content) as [ts|]; [|done].
  destruct (updated_at_time local) as [tl|]; [|done].
  intros [b Hb]%bool_decide_eq_true. rewrite Hb.
  destruct (_ && _); eauto.
Qed.

Lemma well_dated_cons es id content l :
  well_dated es ((id, content) :: l) = true →
  (∃ b, merge_choice (es !! id) content = Ret b) ∧ well_dated es l = true.
Proof.
  unfold well_dated. simpl. intros [Hhd Htl]%andb_true_iff. split; [|done].
  destruct (es !! id) as [local|] eqn:Hl; [|by exists true].
  destruct (_ && _) eqn:Hboth.
  - by apply comparable_choice.
  - exists false. simpl. by rewrite Hboth.
Qed.

Lemma well_dated_ext es1 es2 l :
  (∀ id, id ∈ l.*1 → es1 !! id = es2 !! id) →
  well_dated es1 l = well_dated es2 l.
Proof.
  intros Heq. unfold well_dated. induction l as [|[id content] l IH]; [done|].
  simpl. rewrite (Heq id) by apply list_elem_of_here. f_equal.
  apply IH. intros id' Hin. apply Heq. by apply list_elem_of_further.
Qed.

Lemma merge_loop (l : pydict) st :
  NoDup l.*1 →
  ∃ r st', for_each l merge_item st = (r, st')
    ∧ files st' = files st ∧ stdout st' = stdout st ∧ steady st st'
    ∧ (∀ id, id ∉ l.*1 → entries st' !! id = entries st !! id)
    ∧ (∀ id content, (id, content) ∈ l →
         entries st' !! id = entries st !! id
         ∨ merge_choice (entries st !! id) content = Ret true
           ∧ entries st' !! id = Some content)
    ∧ (r = Ret () → ∀ id content, (id, content) ∈ l →
         ∃ b, merge_choice (entries st !! id) content = Ret b
           ∧ entries st' !! id =
               if b : bool then Some content else entries st !! id)
    ∧ (well_dated (entries st) l = true → r = Ret ()).
Proof.
  revert st. induction l as [|[id0 c0] l IH]; intros st Hnd.
  { exists (Ret ()), st. split_and!; auto with journal.
    intros _ id content Hin. by apply elem_of_nil in Hin. }
  simpl in Hnd. apply NoDup_cons in Hnd as [Hhd Hnd].
  rewrite for_each_cons, merge_item_run.
  destruct (merge_choice (entries st !! id0) c0) as [b|e] eqn:Hchoice; last first.
  { exists (Raise e), st. split_and!; auto with journal; try done.
    intros [[b Hb] _]%well_dated_cons. rewrite Hchoice in Hb. done. }
  set (st1 := if b then set_entries (<[id0 := c0]>) st else st).
  assert (for_each l merge_item st1 =
          if b then for_each l merge_item (set_entries (<[id0 := c0]>) st)
          else for_each l merge_item st) as Hst1 by by destruct b.
  assert (files st1 = files st ∧ stdout st1 = stdout st ∧ steady st st1)
    as (Hf1 & Ho1 & Hs1)
    by (unfold st1; destruct b; split_and!; auto with journal).
  assert (∀ id, id ≠ id0 → entries st1 !! id = entries st !! id) as Hne1.
  { intros id Hne. destruct b; [|done]. simpl. by rewrite lookup_insert_ne. }
  assert (entries st1 !! id0 =
          if b then Some c0 else entries st !! id0) as Heq1.
  { destruct b; [|done]. simpl. by rewrite lookup_insert_eq. }
  assert (∀ id, id ∈ l.*1 → entries st1 !! id = entries st !! id) as Hin1.
  { intros id Hin. apply Hne1. by intros ->. }
  destruct (IH st1 Hnd)
    as (r & st' & Hrun & Hf & Ho & Hs & Hout & Hsome & Hall & Hwd).
  exists r, st'. split_and!.
  - destruct b; by rewrite <-Hst1.
  - congruence.
  - congruence.
  - by eapply steady_trans.
  - intros id [Hne Hnin]%not_elem_of_cons. rewrite Hout by done.
    by apply Hne1.
  - intros id content [[= -> ->]|Hin]%elem_of_cons.
    + rewrite Hout, Heq1 by done. destruct b; [by right|by left].
    + assert (id ∈ l.*1) as Hk
        by (apply list_elem_of_fmap; by exists (id, content)).
      rewrite <-(Hin1 id Hk). by apply Hsome.
  - intros Hr id content [[= -> ->]|Hin]%elem_of_cons.
    + exists b. by rewrite Hout, Heq1.
    + assert (id ∈ l.*1) as Hk
        by (apply list_elem_of_fmap; by exists (id, content)).
      rewrite <-(Hin1 id Hk). by apply Hall.
  - intros [_ Htl]%well_dated_cons. apply Hwd.
    by rewrite (well_dated_ext _ (entries st)).
Qed.

(** ** One cycle of [background_sync] *)

Lemma sync_cycle_unavailable (resp : reply pydict) st :
  fetched resp = None → sync_cycle resp st = (Ret (), st).
Proof.
  unfold sync_cycle, fetched, try_except. rewrite bind_run.
  destruct resp as [|c body]; [done|]. simpl. by case_bool_decide.
Qed.

Lemma sync_cycle_fetched resp server_entries st :
  fetched resp = Some server_entries →
  sync_cycle resp st =
    (Ret (),
     set_sync_lock false
       match for_each server_entries merge_item (set_sync_lock true st) with
       | (Ret _, st1) => (update_local_cache st1).2
       | (Raise _, st1) => st1
       end).
Proof.
  unfold sync_cycle, fetched, try_except. rewrite bind_run.
  destruct resp as [|c body]; [done|]. simpl.
  case_bool_decide; [|done]. intros [= ->].
  unfold with_sync_lock, reconcile. rewrite bind_run.
  destruct (for_each server_entries merge_item (set_sync_lock true st))
    as [[[]|e] st1]; [|done].
  by destruct (update_local_cache_run st1) as (st2 & -> & _).
Qed.

Lemma sync_cycle_entries resp server_entries st :
  fetched resp = Some server_entries →
  entries (sync_cycle resp st).2 =
    entries (for_each server_entries merge_item (set_sync_lock true st)).2.
Proof.
  intros Hf. rewrite (sync_cycle_fetched _ _ _ Hf). simpl.
  destruct (for_each server_entries merge_item (set_sync_lock true st))
    as [[[]|e] st1]; [|done].
  by destruct (update_local_cache_run st1) as (st2 & -> & He & _).
Qed.
End merge.

(** ** The id search of [create_new_entry] *)

Section free_id.
Variable base_date : string.
Implicit Types es : gmap string entry.

Lemma candidate_succ k :
  candidate base_date (S k) = base_date +:+ "_" +:+ pretty (S k).
Proof. reflexivity. Qed.

Lemma candidate_zero_succ k : candidate base_date 0 ≠ candidate base_date (S k).
Proof.
  rewrite candidate_succ. simpl. intros Heq.
  apply (f_equal String.length) in Heq. rewrite length_app in Heq.
  rewrite app_cons in Heq. simpl in Heq. lia.
Qed.

Lemma candidate_inj : Inj (=) (=) (candidate base_date).
Proof.
  intros [|j] [|k] Heq; [done| | |].
  - by apply candidate_zero_succ in Heq.
  - symmetry in Heq. by apply candidate_zero_succ in Heq.
  - rewrite !candidate_succ in Heq.
    apply (inj (String.app base_date)), (inj (String.app "_")) in Heq.
    by apply (inj pretty) in Heq.
Qed.

Lemma free_id_unfold fuel es k :
  free_id (S fuel) es base_date (S k) (candidate base_date k) =
    if bool_decide (is_Some (es !! candidate base_date k))
    then free_id fuel es base_date (S (S k)) (candidate base_date (S k))
    else Some (candidate base_date k).
Proof. reflexivity. Qed.

(** The search only looks at the candidates from the current one on. *)
Lemma free_id_ext fuel es1 es2 k :
  (∀ j, k ≤ j → es1 !! candidate base_date j = es2 !! candidate base_date j) →
  free_id fuel es1 base_date (S k) (candidate base_date k) =
  free_id fuel es2 base_date (S k) (candidate base_date k).
Proof.
  revert k. induction fuel as [|fuel IH]; intros k Heq; [done|].
  rewrite !free_id_unfold, (Heq k) by done.
  case_bool_decide; [|done]. apply IH. intros j Hj. apply Heq. lia.
Qed.

(** The search ends before the fuel does, when the fuel exceeds the
    number of entries. *)
Lemma free_id_total fuel es k :
  size es < fuel →
  is_Some (free_id fuel es base_date (S k) (candidate base_date k)).
Proof.
  revert es k. induction fuel as [|fuel IH]; intros es k Hsize; [lia|].
  rewrite free_id_unfold. case_bool_decide as Hin; [|by eexists].
  rewrite (free_id_ext _ _ (delete (candidate base_date k) es)).
  - apply IH. rewrite map_size_delete_Some by done.
    pose proof (map_size_ne_0_lookup_2 es _ Hin). lia.
  - intros j Hj. rewrite lookup_delete_ne; [done|].
    intros ?%candidate_inj. lia.
Qed.

(** The id found is the first free candidate. *)
Lemma free_id_first fuel es k id :
  free_id fuel es base_date (S k) (candidate base_date k) = Some id →
  ∃ n, k ≤ n ∧ id = candidate base_date n ∧ es !! id = None
    ∧ ∀ j, k ≤ j < n → is_Some (es !! candidate base_date j).
Proof.
  revert k. induction fuel as [|fuel IH]; intros k; [done|].
  rewrite free_id_unfold. case_bool_decide as Hin.
  - intros (n & Hn & -> & Hfree & Hbusy)%IH.
    exists n. split_and!; [lia|done..|].
    intros j Hj. destruct (decide (j = k)) as [->|]; [done|].
    apply Hbusy. lia.
  - intros [= <-]. exists k. split_and!; [done..| |intros j; lia].
    by apply eq_None_not_Some.
Qed.
End free_id.

(** * The merge policy of [background_sync] *)

Section merge_policy.
Context `{DateTime}.

Lemma updated_at_time_is_Some content t :
  updated_at_time content = Ret t → is_Some (content !! "updated_at").
Proof.
  unfold updated_at_time. destruct (content !! "updated_at"); [eauto|done].
Qed.

Lemma merge_choice_dated local content tl ts :
  updated_at_time local = Ret tl → updated_at_time content = Ret ts →
  merge_choice (Some local) content = later ts tl.
Proof.
  intros Hl Hs. unfold merge_choice.
  rewrite !bool_decide_eq_true_2 by by eapply updated_at_time_is_Some.
  simpl. by rewrite Hs, Hl.
Qed.

Lemma merge_choice_undated local content :
  content !! "updated_at" = None ∨ local !! "updated_at" = None →
  merge_choice (Some local) content = Ret false.
Proof.
  unfold merge_choice. intros [Hn|Hn]; rewrite Hn.
  - rewrite (bool_decide_eq_false_2 (is_Some None)); [done|].
    by intros [? [=]].
  - rewrite (bool_decide_eq_false_2 (is_Some None)) by by intros [? [=]].
    by rewrite andb_false_r.
Qed.

(** No cycle of [background_sync], whatever the server answers and even
    when the merge stops on an exception, removes an id from
    [self.entries]. *)
Lemma sync_cycle_never_removes resp st id :
  is_Some (entries st !! id) →
  is_Some (entries (sync_cycle resp st).2 !! id).
Proof.
  intros Hid. destruct (fetched resp) as [l|] eqn:Hf.
  - rewrite (sync_cycle_fetched _ _ _ Hf). simpl.
    assert (∀ l st, is_Some (entries st !! id) →
              is_Some (entries (for_each l merge_item st).2 !! id)) as Hloop.
    { clear. intros l. induction l as [|[id0 c0] l IH]; intros st Hid; [done|].
      rewrite for_each_cons, merge_item_run.
      destruct (merge_choice _ _) as [[]|]; [|by apply IH|done].
      apply IH. simpl. destruct (decide (id0 = id)) as [->|].
      - rewrite lookup_insert_eq. eauto.
      - by rewrite lookup_insert_ne. }
    specialize (Hloop l (set_sync_lock true st) Hid).
    destruct (for_each l merge_item (set_sync_lock true st))
      as [[[]|e] st1]; [|done].
    destruct (update_local_cache_run st1) as (st2 & -> & He & _).
    simpl. by rewrite He.
  - by rewrite sync_cycle_unavailable.
Qed.

(** Nor does any number of turns of the loop. *)
Lemma background_sync_never_removes resps st id :
  is_Some (entries st !! id) →
  is_Some (entries (background_sync resps st).2 !! id).
Proof.
  unfold background_sync. revert st.
  induction resps as [|resp resps IH]; intros st Hid; [done|].
  rewrite for_each_cons.
  pose proof (sync_cycle_never_removes resp st id Hid) as Hid1.
  destruct (fetched resp) as [l|] eqn:Hf.
  - rewrite (sync_cycle_fetched _ _ _ Hf) in Hid1 |- *. by apply IH.
  - rewrite (sync_cycle_unavailable _ _ Hf) in Hid1 |- *. by apply IH.
Qed.

(** X29. One cycle of [background_sync] that fetched [server_entries]
    (a dict, so with distinct keys) whose time stamps can all be read and
    compared: for an id held on both sides with a time stamp [tl] in the
    journal and [ts] on the server, the journal ends with the entry of
    the server exactly when [ts > tl], and with its own entry otherwise;
    in particular equal time stamps keep the entry of the journal. *)
Theorem reconcile_last_write_wins resp server_entries st id local content
    tl ts :
  fetched resp = Some server_entries →
  NoDup server_entries.*1 →
  well_dated (entries st) server_entries = true →
  entries st !! id = Some local →
  (id, content) ∈ server_entries →
  updated_at_time local = Ret tl →
  updated_at_time content = Ret ts →
  ∃ newer,
    dt_gt ts tl = Some newer
    ∧ entries (sync_cycle resp st).2 !! id
      = Some (if newer : bool then content else local)
    ∧ (ts = tl → entries (sync_cycle resp st).2 !! id = Some local).
Proof.
  intros Hf Hnd Hwd Hid Hin Hl Hs.
  rewrite (sync_cycle_entries _ _ _ Hf).
  destruct (merge_loop server_entries (set_sync_lock true st) Hnd)
    as (r & st1 & -> & _ & _ & _ & _ & _ & Hall & Hret).
  destruct (Hall (Hret Hwd) id content Hin) as (b & Hb & Hres).
  simpl in Hb, Hres. rewrite Hid in Hb, Hres.
  rewrite (merge_choice_dated _ _ _ _ Hl Hs) in Hb. unfold later in Hb.
  destruct (dt_gt ts tl) as [newer|] eqn:Hgt; [|done].
  injection Hb as ->. exists b. split_and!; [done|by destruct b|].
  intros ->. rewrite dt_gt_irrefl in Hgt. by injection Hgt as <-.
Qed.

(** X30. After one cycle of [background_sync] that fetched
    [server_entries] (a dict) whose time stamps can all be read and
    compared, the ids of the journal are the ids it had together with
    the ids of the server; an id that only the server had is held with
    the entry of the server; every id the journal had is still held. *)
Theorem reconcile_key_union resp server_entries st :
  fetched resp = Some server_entries →
  NoDup server_entries.*1 →
  well_dated (entries st) server_entries = true →
  dom (entries (sync_cycle resp st).2)
    = dom (entries st) ∪ list_to_set server_entries.*1
  ∧ (∀ id content, (id, content) ∈ server_entries →
       entries st !! id = None →
       entries (sync_cycle resp st).2 !! id = Some content)
  ∧ (∀ id, is_Some (entries st !! id) →
       is_Some (entries (sync_cycle resp st).2 !! id)).
Proof.
  intros Hf Hnd Hwd. split_and!.
  - rewrite (sync_cycle_entries _ _ _ Hf).
    destruct (merge_loop server_entries (set_sync_lock true st) Hnd)
      as (r & st1 & -> & _ & _ & _ & Hout & _ & Hall & Hret).
    specialize (Hall (Hret Hwd)). simpl in *.
    apply set_eq. intros id.
    rewrite elem_of_union, !elem_of_dom, elem_of_list_to_set.
    destruct (decide (id ∈ server_entries.*1)) as [Hk|Hk].
    + apply list_elem_of_fmap in Hk as ([id' content] & -> & Hin).
      simpl. destruct (Hall _ _ Hin) as (b & Hb & Hres). rewrite Hres.
      split; [intros _; right|intros _].
      * apply list_elem_of_fmap. by exists (id', content).
      * destruct (entries st !! id') eqn:Hid.
        -- destruct b; eauto.
        -- injection Hb as <-. eauto.
    + rewrite Hout by done. split; [by left|by intros [?|?]].
  - intros id content Hin Hid.
    rewrite (sync_cycle_entries _ _ _ Hf).
    destruct (merge_loop server_entries (set_sync_lock true st) Hnd)
      as (r & st1 & -> & _ & _ & _ & _ & _ & Hall & Hret).
    destruct (Hall (Hret Hwd) id content Hin) as (b & Hb & Hres).
    simpl in *. rewrite Hres. rewrite Hid in Hb. by injection Hb as <-.
  - intros id. apply sync_cycle_never_removes.
Qed.

(** C3. One cycle of [background_sync] that fetched [server_entries]
    (a dict): for an id held on both sides, when the entry of the server
    or the entry of the journal has no [updated_at] field, the journal
    keeps its own entry. *)
Theorem reconcile_undated_keeps_local resp server_entries st id local
    content :
  fetched resp = Some server_entries →
  NoDup server_entries.*1 →
  entries st !! id = Some local →
  (id, content) ∈ server_entries →
  content !! "updated_at" = None ∨ local !! "updated_at" = None →
  entries (sync_cycle resp st).2 !! id = Some local.
Proof.
  intros Hf Hnd Hid Hin Hno.
  rewrite (sync_cycle_entries _ _ _ Hf).
  destruct (merge_loop server_entries (set_sync_lock true st) Hnd)
    as (r & st1 & -> & _ & _ & _ & _ & Hsome & _).
  simpl in *. destruct (Hsome id content Hin) as [Hres|[Hb _]].
  - by rewrite Hres.
  - rewrite Hid, merge_choice_undated in Hb by done. done.
Qed.
End merge_policy.

(** ** The merge policy on sample journals *)

(** [reconcile_last_write_wins] on the scenario of the specification: the
    journal holds ["2024-01-01"] stamped 10:00, the server sends it stamped
    11:00. *)
Lemma reconcile_last_write_wins_witness :
  ∃ newer,
    dt_gt (DateTime := naive_iso)
      (NaiveIso.mk 2024 1 1 11 0 0 0) (NaiveIso.mk 2024 1 1 10 0 0 0)
      = Some newer
    ∧ entries
        (sync_cycle (H := naive_iso)
           (Response 200 [("2024-01-01", stamped "b" "2024-01-01T11:00:00")])
           (holding {["2024-01-01" := stamped "a" "2024-01-01T10:00:00"]})).2
        !! "2024-01-01"
      = Some (if newer : bool then stamped "b" "2024-01-01T11:00:00"
              else stamped "a" "2024-01-01T10:00:00")
    ∧ (NaiveIso.mk 2024 1 1 11 0 0 0 = NaiveIso.mk 2024 1 1 10 0 0 0 →
       entries
         (sync_cycle (H := naive_iso)
            (Response 200 [("2024-01-01", stamped "b" "2024-01-01T11:00:00")])
            (holding {["2024-01-01" := stamped "a" "2024-01-01T10:00:00"]})).2
         !! "2024-01-01"
       = Some (stamped "a" "2024-01-01T10:00:00")).
Proof.
  apply (reconcile_last_write_wins (H := naive_iso)
           (Response 200 [("2024-01-01", stamped "b" "2024-01-01T11:00:00")])
           [("2024-01-01", stamped "b" "2024-01-01T11:00:00")]
           (holding {["2024-01-01" := stamped "a" "2024-01-01T10:00:00"]})
           "2024-01-01" (stamped "a" "2024-01-01T10:00:00")
           (stamped "b" "2024-01-01T11:00:00")).
  - reflexivity.
  - apply NoDup_singleton.
  - vm_compute. reflexivity.
  - reflexivity.
  - apply list_elem_of_here.
  - vm_compute. reflexivity.
  - vm_compute. reflexivity.
Defined.

(** [reconcile_key_union] when the server sends a newer ["2024-01-01"] and
    an id the journal does not hold. *)
Lemma reconcile_key_union_witness :
  let st := holding {["2024-01-01" := stamped "a" "2024-01-01T10:00:00"]} in
  let server_entries :=
    [("2024-01-01", stamped "b" "2024-01-01T11:00:00");
     ("2024-01-02", undated "c")] in
  dom (entries (sync_cycle (H := naive_iso) (Response 200 server_entries) st).2)
    = dom (entries st) ∪ list_to_set server_entries.*1
  ∧ (∀ id content, (id, content) ∈ server_entries →
       entries st !! id = None →
       entries (sync_cycle (H := naive_iso) (Response 200 server_entries) st).2
         !! id = Some content)
  ∧ (∀ id, is_Some (entries st !! id) →
       is_Some
         (entries (sync_cycle (H := naive_iso) (Response 200 server_entries) st).2
            !! id)).
Proof.
  apply (reconcile_key_union (H := naive_iso)).
  - reflexivity.
  - apply NoDup_cons. split; [|apply NoDup_singleton].
    intros Hin%list_elem_of_singleton. discriminate Hin.
  - vm_compute. reflexivity.
Defined.

(** [reconcile_undated_keeps_local] when the entry of the server has no
    time stamp. *)
Lemma reconcile_undated_keeps_local_witness :
  entries
    (sync_cycle (H := naive_iso)
       (Response 200 [("2024-01-01", undated "b")])
       (holding {["2024-01-01" := stamped "a" "2024-01-01T10:00:00"]})).2
    !! "2024-01-01"
  = Some (stamped "a" "2024-01-01T10:00:00").
Proof.
  apply (reconcile_undated_keeps_local (H := naive_iso)
           (Response 200 [("2024-01-01", undated "b")])
           [("2024-01-01", undated "b")] _ _ _ (undated "b")).
  - reflexivity.
  - apply NoDup_singleton.
  - reflexivity.
  - apply list_elem_of_here.
  - left. reflexivity.
Defined.

(** The scenario of the specification, run: the content becomes ["b"]. *)
Example reconcile_scenario :
  entries
    (sync_cycle (H := naive_iso)
       (Response 200 [("2024-01-01", stamped "b" "2024-01-01T11:00:00")])
       (holding {["2024-01-01" := stamped "a" "2024-01-01T10:00:00"]})).2
    !! "2024-01-01"
  = Some (stamped "b" "2024-01-01T11:00:00").
Proof. vm_compute. reflexivity. Qed.

(** * Records that cannot be read *)

(** ** The read of the cache prints and goes on *)

Lemma load_item_stdout filename st d :
  d ∈ stdout st → d ∈ stdout (load_item filename st).2.
Proof.
  intros Hd. rewrite load_item_run. simpl.
  destruct (endswith filename ".json"); [|done].
  destruct (files st !! filename) as [[]|]; simpl; [done|..];
    apply elem_of_app; by left.
Qed.

Lemma load_loop_stdout l st d :
  d ∈ stdout st → d ∈ stdout (for_each l load_item st).2.
Proof.
  revert st. induction l as [|filename l IH]; intros st Hd; [done|].
  rewrite for_each_cons. pose proof (load_item_stdout filename st d Hd) as Hd1.
  rewrite load_item_run in Hd1 |- *. by apply IH.
Qed.

Lemma load_loop_reports l st f :
  f ∈ l → endswith f ".json" = true → files st !! f = Some Garbage →
  ErrorLoading f ∈ stdout (for_each l load_item st).2.
Proof.
  revert st. induction l as [|filename l IH]; intros st Hin Hend Hf.
  { by apply elem_of_nil in Hin. }
  rewrite for_each_cons, load_item_run.
  apply elem_of_cons in Hin as [<-|Hin].
  - rewrite Hend, Hf. apply load_loop_stdout. simpl.
    apply elem_of_app. right. apply list_elem_of_here.
  - apply IH; [done..|].
    destruct (endswith filename ".json"); [|done].
    by destruct (files st !! filename) as [[]|].
Qed.

(** The read of [data/] in [load_entries] goes on past a file that does not
    decode: it prints a line for the file, and loads every file that
    decodes. *)
Lemma load_from_cache_skips_garbage st f :
  endswith f ".json" = true → files st !! f = Some Garbage →
  ErrorLoading f ∈ stdout (load_from_cache st).2
  ∧ ∀ id e, files st !! json_name id = Some (Json e) →
      entries (load_from_cache st).2 !! id = Some e.
Proof.
  intros Hend Hf. split.
  - change (load_from_cache st) with
      (for_each (map_to_list (files st)).*1 load_item
         (set_entries (λ _, ∅) st)).
    apply load_loop_reports; [|done..].
    apply list_elem_of_fmap. exists (f, Garbage). split; [done|].
    by apply elem_of_map_to_list.
  - intros id e Hid.
    destruct (load_from_cache_run st) as (st' & -> & _ & _ & _ & _ & Hent).
    simpl. by rewrite Hent, Hid.
Qed.

(** ** The merge stops

    When the loop body raises on an item, the cycle ends there: the items
    that follow are not looked at, [update_local_cache] is not called and
    nothing is printed. *)
Lemma sync_cycle_stops_at_failure `{DateTime} resp merged id content rest
    st st1 e :
  fetched resp = Some (merged ++ (id, content) :: rest) →
  for_each merged merge_item (set_sync_lock true st) = (Ret (), st1) →
  merge_choice (entries st1 !! id) content = Raise e →
  sync_cycle resp st = (Ret (), set_sync_lock false st1).
Proof.
  intros Hf Hrun Hraise.
  rewrite (sync_cycle_fetched _ _ _ Hf), for_each_app, Hrun.
  by rewrite for_each_cons, merge_item_run, Hraise.
Qed.

(** C6. A record of the server whose [updated_at] cannot be read stops the
    merge of [background_sync]: with ["2024-01-01"] held by the journal and
    sent by the server with the time stamp ["soon"], followed by a new
    record ["2024-01-02"], the cycle ends as if nothing had been fetched --
    the new record is not merged, nothing is printed, [data/] is not
    written -- whereas the same new record sent alone is merged. *)
Theorem sync_cycle_stops_at_unreadable_record :
  let journal0 :=
    holding {["2024-01-01" := stamped "a" "2024-01-01T10:00:00"]} in
  let unreadable := ("2024-01-01", stamped "b" "soon") in
  let new := ("2024-01-02", stamped "c" "2024-01-02T09:00:00") in
  sync_cycle (H := naive_iso) (Response 200 [unreadable; new]) journal0
    = (Ret (), journal0)
  ∧ entries (sync_cycle (H := naive_iso) (Response 200 [new]) journal0).2
      !! "2024-01-02" = Some new.2.
Proof.
  split.
  - reflexivity.
  - vm_compute. reflexivity.
Qed.

(** C1. The later entry does not always win.  The journal holds
    ["2024-01-02"] stamped 09:00 and the server sends it stamped 11:00:
    both time stamps are read and the one of the server is the later.
    Sent alone, the entry of the server replaces the one of the journal.
    Sent after a record whose [updated_at] cannot be read, it is never
    looked at: the merge has stopped at that record, and the journal keeps
    its older entry. *)
Theorem reconcile_later_entry_not_taken :
  let local := stamped "c" "2024-01-02T09:00:00" in
  let remote := stamped "d" "2024-01-02T11:00:00" in
  let journal0 :=
    holding {["2024-01-01" := stamped "a" "2024-01-01T10:00:00";
              "2024-01-02" := local]} in
  let unreadable := ("2024-01-01", stamped "b" "soon") in
  updated_at_time (H := naive_iso) local
    = Ret (NaiveIso.mk 2024 1 2 9 0 0 0)
  ∧ updated_at_time (H := naive_iso) remote
    = Ret (NaiveIso.mk 2024 1 2 11 0 0 0)
  ∧ dt_gt (DateTime := naive_iso)
      (NaiveIso.mk 2024 1 2 11 0 0 0) (NaiveIso.mk 2024 1 2 9 0 0 0)
    = Some true
  ∧ entries
      (sync_cycle (H := naive_iso)
         (Response 200 [unreadable; ("2024-01-02", remote)]) journal0).2
      !! "2024-01-02" = Some local
  ∧ entries
      (sync_cycle (H := naive_iso)
         (Response 200 [("2024-01-02", remote)]) journal0).2
      !! "2024-01-02" = Some remote.
Proof.
  split_and!.
  - vm_compute. reflexivity.
  - vm_compute. reflexivity.
  - vm_compute. reflexivity.
  - reflexivity.
  - vm_compute. reflexivity.
Qed.

(** C2. The ids after a cycle are not always the union.  The server sends
    ["2024-01-01"], held by the journal, with a time stamp that cannot be
    read, and then ["2024-01-03"], which the journal does not hold: the
    dict is fetched with status 200, the merge stops at the first record,
    and the id that only the server has is not inserted.  Sent alone, it
    is. *)
Theorem reconcile_remote_id_not_inserted :
  let journal0 :=
    holding {["2024-01-01" := stamped "a" "2024-01-01T10:00:00"]} in
  let unreadable := ("2024-01-01", stamped "b" "soon") in
  let new := ("2024-01-03", stamped "n" "2024-01-03T08:00:00") in
  let after :=
    (sync_cycle (H := naive_iso) (Response 200 [unreadable; new])
       journal0).2 in
  fetched (Response 200 [unreadable; new]) = Some [unreadable; new]
  ∧ entries journal0 !! "2024-01-03" = None
  ∧ entries after !! "2024-01-03" = None
  ∧ dom (entries after)
    ≠ dom (entries journal0) ∪ list_to_set [unreadable; new].*1
  ∧ entries
      (sync_cycle (H := naive_iso) (Response 200 [new]) journal0).2
      !! "2024-01-03" = Some new.2.
Proof.
  intros journal0 unreadable new after. split_and!.
  - reflexivity.
  - reflexivity.
  - reflexivity.
  - intros Heq.
    assert ("2024-01-03" ∈ dom (entries journal0)
              ∪ list_to_set (C := gset string) [unreadable; new].*1) as Hin.
    { apply elem_of_union_r, elem_of_list_to_set. simpl.
      apply list_elem_of_further, list_elem_of_here. }
    rewrite <-Heq in Hin. apply elem_of_dom in Hin as [e He].
    discriminate He.
  - vm_compute. reflexivity.
Qed.

(** * Foreground calls and the on-disk mirror *)

(** C4. [save_entry] stores the entry under its id in [self.entries]
    whatever the server answers; it writes the file of the id with that
    entry unless the file system refuses the write, in which case the
    caller sees [OSError]; the answer of the server (time-out, refusal,
    any status) changes neither the outcome nor the state, so no failure
    of the server reaches the caller. *)
Theorem save_entry_ignores_remote date_str content post st :
  entries (save_entry date_str content post st).2
    = <[date_str := content]> (entries st)
  ∧ (save_entry date_str content post st).1
    = (if decide (json_name date_str ∈ denied st)
       then Raise OSError else Ret ())
  ∧ files (save_entry date_str content post st).2
    = (if decide (json_name date_str ∈ denied st)
       then files st
       else <[json_name date_str := Json content]> (files st))
  ∧ save_entry date_str content post st
    = save_entry date_str content Unreachable st.
Proof.
  rewrite !save_entry_run. simpl. by case_decide.
Qed.

(** C5. [load_entries] never raises.  When the server cannot be reached or
    answers with a status other than 200, [self.entries] becomes what the
    files of [data/] hold: the id [x] is held exactly when [x.json]
    decodes, with the decoded entry, and the files are left as they are.
    When the server answers 200, [self.entries] becomes the dict of the
    answer. *)
Theorem load_entries_fallback resp st :
  (load_entries resp st).1 = Ret ()
  ∧ match fetched resp with
    | Some server_entries =>
        entries (load_entries resp st).2 = list_to_map server_entries
    | None =>
        files (load_entries resp st).2 = files st
        ∧ ∀ id, entries (load_entries resp st).2 !! id =
            match files st !! json_name id with
            | Some (Json e) => Some e
            | _ => None
            end
    end.
Proof.
  destruct (fetched resp) as [server_entries|] eqn:Hf.
  - rewrite (load_entries_fetched _ _ _ Hf).
    destruct (update_local_cache_run
      (set_entries (λ _, list_to_map server_entries) st))
      as (st' & -> & He & _).
    simpl. by rewrite He.
  - rewrite (load_entries_unavailable _ _ Hf).
    by destruct (load_from_cache_run st) as (st' & -> & Hfs & _ & _ & _ & He).
Qed.

(** What a run of calls leaves under an id is what the last call about
    that id asked for; an id no call is about is left as it was. *)
Lemma run_calls_last calls st :
  mirrored st → denied st = ∅ →
  ∃ st', for_each calls run_call st = (Ret (), st')
    ∧ (∀ id, id ∉ call_id <$> calls → entries st' !! id = entries st !! id)
    ∧ (∀ before c after,
         calls = before ++ c :: after →
         call_id c ∉ call_id <$> after →
         entries st' !! call_id c = call_entry c).
Proof.
  revert st. induction calls as [|c calls IH]; intros st Hm Hd.
  { exists st. split_and!; [done..|].
    intros before c after Heq. by destruct before. }
  rewrite for_each_cons.
  assert (∃ st1, run_call c st = (Ret (), st1) ∧ mirrored st1
                 ∧ denied st1 = ∅
                 ∧ entries st1 !! call_id c = call_entry c
                 ∧ (∀ id, id ≠ call_id c →
                      entries st1 !! id = entries st !! id))
    as (st1 & -> & Hm1 & Hd1 & Hc & Hframe).
  { destruct c as [date_str content post|date_str del]; simpl.
    - destruct (save_entry_mirrored date_str content post st Hm Hd)
        as (st1 & Hrun & ? & ?).
      exists st1. split_and!; [done..| |].
      + rewrite save_entry_run in Hrun. simpl in Hrun.
        case_decide; simplify_eq/=. by rewrite lookup_insert_eq.
      + intros id Hne. rewrite save_entry_run in Hrun. simpl in Hrun.
        case_decide; simplify_eq/=. by rewrite lookup_insert_ne.
    - destruct (delete_entry_mirrored date_str del st Hm Hd)
        as (st1 & Hrun & ? & ?).
      exists st1. pose proof Hrun as Hrun0.
      rewrite delete_entry_run in Hrun. simpl in Hrun.
      split_and!; [done..| |].
      + repeat (case_bool_decide || case_decide); simplify_eq/=;
          rewrite ?lookup_delete_eq; try done;
          by apply eq_None_not_Some.
      + intros id Hne.
        repeat (case_bool_decide || case_decide); simplify_eq/=;
          by rewrite ?lookup_delete_ne. }
  destruct (IH st1 Hm1 Hd1) as (st' & -> & Hout & Hlast).
  exists st'. split_and!; [done| |].
  - intros id Hid. rewrite fmap_cons, not_elem_of_cons in Hid.
    destruct Hid as [Hne Hid]. rewrite Hout by done. by apply Hframe.
  - intros before c' after Heq Hafter.
    destruct before as [|c0 before]; simplify_eq/=.
    + by rewrite Hout.
    + by eapply Hlast.
Qed.

(** C9. Any sequence of [save_entry] and [delete_entry] calls on a journal
    that starts empty, in an empty [data/] that accepts every write, runs
    to its end, and then memory and [data/] agree: the file [x.json] holds
    the entry that [self.entries] holds under [x] and is absent when [x]
    is absent, there is no other file, and reading [data/] back as
    [load_entries] does gives [self.entries].  What the two hold is what
    the calls asked for: under the id of a call that no later call is
    about, the saved entry in memory and in its file after a save, no
    entry and no file after a remove; nothing under an id that no call is
    about.  When the ids of the calls are distinct this is so for every
    call of the sequence. *)
Theorem save_remove_converge calls :
  ∃ st', for_each calls run_call empty_journal = (Ret (), st')
    ∧ (∀ id, files st' !! json_name id = Json <$> entries st' !! id)
    ∧ (∀ f, is_Some (files st' !! f) →
         ∃ id, f = json_name id ∧ is_Some (entries st' !! id))
    ∧ entries (load_from_cache st').2 = entries st'
    ∧ (∀ before c after,
         calls = before ++ c :: after →
         call_id c ∉ call_id <$> after →
         entries st' !! call_id c = call_entry c
         ∧ files st' !! json_name (call_id c) = Json <$> call_entry c)
    ∧ (∀ id, id ∉ call_id <$> calls →
         entries st' !! id = None ∧ files st' !! json_name id = None)
    ∧ (NoDup (call_id <$> calls) →
       ∀ c, c ∈ calls →
         entries st' !! call_id c = call_entry c
         ∧ files st' !! json_name (call_id c) = Json <$> call_entry c).
Proof.
  destruct (run_calls_mirrored calls empty_journal mirrored_empty eq_refl)
    as (st' & Hrun & [Hm1 Hm2] & _).
  destruct (run_calls_last calls empty_journal mirrored_empty eq_refl)
    as (st'' & Hrun' & Hout & Hlast).
  rewrite Hrun in Hrun'. injection Hrun' as <-.
  assert (∀ before c after,
            calls = before ++ c :: after →
            call_id c ∉ call_id <$> after →
            entries st' !! call_id c = call_entry c
            ∧ files st' !! json_name (call_id c) = Json <$> call_entry c)
    as Hcall.
  { intros before c after Heq Hafter.
    pose proof (Hlast before c after Heq Hafter) as Hc.
    split; [done|]. by rewrite Hm1, Hc. }
  exists st'. split_and!; [done|done| |by apply mirrored_load_from_cache
                           |done| |].
  - intros f Hf. exists (drop_last f 5).
    destruct (endswith f ".json") eqn:Hend.
    + apply endswith_json_inv in Hend. split; [done|].
      rewrite Hend, Hm1 in Hf. by apply fmap_is_Some in Hf.
    + rewrite Hm2 in Hf by done. by destruct Hf.
  - intros id Hid. pose proof (Hout id Hid) as He. simpl in He.
    rewrite lookup_empty in He. split; [done|]. by rewrite Hm1, He.
  - intros Hnd c Hin.
    apply list_elem_of_split in Hin as (before & after & Heq).
    apply (Hcall before c after Heq).
    rewrite Heq, fmap_app, fmap_cons in Hnd.
    apply NoDup_app in Hnd as (_ & _ & Hnd).
    by apply NoDup_cons in Hnd as [? _].
Qed.

(** C10. [update_local_cache] returns normally and leaves [self.entries]
    as it is; it writes the file of every id of [self.entries] that the
    file system lets it write, with the entry held under the id, and it
    leaves every other file of [data/] as it is: the file of an id that
    is not in [self.entries] is neither removed nor changed.  Hence after
    a [load_entries] that took the dict of the server, the file of an id
    the server did not send is as it was before. *)
Theorem update_local_cache_keeps_stale st :
  ∃ st', update_local_cache st = (Ret (), st')
    ∧ entries st' = entries st
    ∧ (∀ id e, entries st !! id = Some e → json_name id ∉ denied st →
         files st' !! json_name id = Some (Json e))
    ∧ (∀ id, entries st !! id = None →
         files st' !! json_name id = files st !! json_name id)
    ∧ (∀ resp server_entries id,
         fetched resp = Some server_entries → id ∉ server_entries.*1 →
         files (load_entries resp st).2 !! json_name id
           = files st !! json_name id).
Proof.
  destruct (update_local_cache_run st)
    as (st' & Hrun & He & _ & _ & _ & Hframe & _ & Hwr).
  exists st'. split_and!; [done..| |].
  - intros id Hid. apply Hframe.
    intros id' [e He'] ?%json_name_inj. congruence.
  - intros resp server_entries id Hf Hid.
    rewrite (load_entries_fetched _ _ _ Hf).
    destruct (update_local_cache_run
      (set_entries (λ _, list_to_map server_entries) st))
      as (st2 & -> & _ & _ & _ & _ & Hframe2 & _).
    simpl. rewrite Hframe2; [done|].
    intros id' [e He'] ?%json_name_inj. subst id'. simpl in He'.
    apply elem_of_list_to_map_2 in He'. apply Hid.
    apply list_elem_of_fmap. by exists (id, e).
Qed.

(** * Fresh ids *)

Lemma create_new_entry_run fuel today created_at updated_at post st date_str :
  free_id fuel (entries st) today 1 today = Some date_str →
  create_new_entry fuel today created_at updated_at post st =
    ((if decide (json_name date_str ∈ denied st)
      then Raise OSError else Ret (Some date_str)),
     (save_entry date_str (empty_entry created_at updated_at) post st).2).
Proof.
  intros Hid. unfold create_new_entry. rewrite bind_run. simpl. rewrite Hid.
  rewrite bind_run, save_entry_run. simpl. by case_decide.
Qed.

(** C8. With more fuel than there are entries, the search of
    [create_new_entry] ends and chooses [date_str], the first of [today],
    [today_1], [today_2], ... that is not an id of [self.entries];
    [create_new_entry] saves the empty entry under it and returns it
    (unless the file system refuses the write).  A second search on the
    same day, right after, ends on another id; when neither [today] nor
    [today_1] was an id before the first call, the two ids are [today] and
    [today_1]. *)
Theorem create_new_entry_fresh fuel today created_at updated_at post st :
  size (entries st) < fuel →
  ∃ n m,
    let date_str := candidate today n in
    let st1 :=
      (create_new_entry fuel today created_at updated_at post st).2 in
    free_id fuel (entries st) today 1 today = Some date_str
    ∧ entries st !! date_str = None
    ∧ (∀ j, j < n → is_Some (entries st !! candidate today j))
    ∧ (create_new_entry fuel today created_at updated_at post st).1
      = (if decide (json_name date_str ∈ denied st)
         then Raise OSError else Ret (Some date_str))
    ∧ entries st1
      = <[date_str := empty_entry created_at updated_at]> (entries st)
    ∧ free_id (S fuel) (entries st1) today 1 today = Some (candidate today m)
    ∧ candidate today m ≠ date_str
    ∧ (entries st !! today = None → entries st !! (today +:+ "_1") = None →
       date_str = today ∧ candidate today m = today +:+ "_1").
Proof.
  intros Hsize.
  destruct (free_id_total today fuel (entries st) 0 Hsize) as [id1 Hid1].
  change (free_id fuel (entries st) today 1 today = Some id1) in Hid1.
  pose proof (free_id_first today _ _ _ _ Hid1) as (n & _ & -> & Hfree & Hbusy).
  set (st1 := (create_new_entry fuel today created_at updated_at post st).2).
  assert (entries st1 =
    <[candidate today n := empty_entry created_at updated_at]> (entries st))
    as Hst1.
  { unfold st1. rewrite (create_new_entry_run _ _ _ _ _ _ _ Hid1).
    rewrite save_entry_run. simpl. by case_decide. }
  assert (size (entries st1) < S fuel) as Hsize1.
  { rewrite Hst1, map_size_insert_None by done. lia. }
  destruct (free_id_total today _ _ 0 Hsize1) as [id2 Hid2].
  change (free_id (S fuel) (entries st1) today 1 today = Some id2) in Hid2.
  pose proof (free_id_first today _ _ _ _ Hid2) as (m & _ & -> & Hfree2 & Hbusy2).
  exists n, m. simpl. fold st1. split_and!; try done.
  - intros j Hj. apply Hbusy. lia.
  - by rewrite (create_new_entry_run _ _ _ _ _ _ _ Hid1).
  - intros Heq. rewrite Heq, Hst1, lookup_insert_eq in Hfree2. done.
  - intros Htoday Hnext.
    assert (n = 0) as ->.
    { destruct n as [|n]; [done|]. destruct (Hbusy 0) as [e He]; [lia|].
      simpl in He. congruence. }
    split; [done|].
    assert (m ≠ 0) as Hm0.
    { intros ->. by rewrite Hst1, lookup_insert_eq in Hfree2. }
    assert (¬ 1 < m) as Hm1.
    { intros Hlt. destruct (Hbusy2 1) as [e He]; [lia|].
      rewrite Hst1, lookup_insert_ne in He by by apply candidate_zero_succ.
      change (candidate today 1) with (today +:+ "_1") in He. congruence. }
    by replace m with 1 by lia.
Qed.

(** [create_new_entry_fresh] on a journal that already holds the entry of
    the day. *)
Lemma create_new_entry_fresh_witness :
  ∃ n m,
    let st := holding {["2024-01-01" := undated "a"]} in
    let date_str := candidate "2024-01-01" n in
    let st1 :=
      (create_new_entry 2 "2024-01-01" "t0" "t1" Unreachable st).2 in
    free_id 2 (entries st) "2024-01-01" 1 "2024-01-01" = Some date_str
    ∧ entries st !! date_str = None
    ∧ (∀ j, j < n → is_Some (entries st !! candidate "2024-01-01" j))
    ∧ (create_new_entry 2 "2024-01-01" "t0" "t1" Unreachable st).1
      = (if decide (json_name date_str ∈ denied st)
         then Raise OSError else Ret (Some date_str))
    ∧ entries st1 = <[date_str := empty_entry "t0" "t1"]> (entries st)
    ∧ free_id 3 (entries st1) "2024-01-01" 1 "2024-01-01"
      = Some (candidate "2024-01-01" m)
    ∧ candidate "2024-01-01" m ≠ date_str
    ∧ (entries st !! "2024-01-01" = None →
       entries st !! ("2024-01-01" +:+ "_1") = None →
       date_str = "2024-01-01"
       ∧ candidate "2024-01-01" m = "2024-01-01" +:+ "_1").
Proof.
  apply (create_new_entry_fresh 2 "2024-01-01" "t0" "t1" Unreachable
           (holding {["2024-01-01" := undated "a"]})).
  vm_compute. lia.
Defined.

(** Two searches on the same day, the first on an empty journal. *)
Example create_twice :
  free_id 1 ∅ "2024-01-01" 1 "2024-01-01" = Some "2024-01-01"
  ∧ free_id 2 {["2024-01-01" := empty_entry "t0" "t1"]}
      "2024-01-01" 1 "2024-01-01" = Some "2024-01-01_1".
Proof. split; vm_compute; reflexivity. Qed.

(** * The lock *)

Lemma save_entry_mutations date_str content post st :
  mutations (save_entry date_str content post st).2 = mutations st ++ [true].
Proof. rewrite save_entry_run. simpl. by case_decide. Qed.

Lemma delete_entry_mutations date_str del st :
  ∃ k, mutations (delete_entry date_str del st).2
       = mutations st ++ replicate k true.
Proof.
  rewrite delete_entry_run. simpl.
  exists (if bool_decide (is_Some (entries st !! date_str)) then 1 else 0).
  repeat case_bool_decide; repeat case_decide; simpl; by rewrite ?app_nil_r.
Qed.

Lemma sync_cycle_mutations `{DateTime} resp st :
  ∃ k, mutations (sync_cycle resp st).2 = mutations st ++ replicate k true.
Proof.
  destruct (fetched resp) as [l|] eqn:Hf.
  - rewrite (sync_cycle_fetched _ _ _ Hf). simpl.
    assert (∀ l st, ∃ k, mutations (for_each l merge_item st).2
              = mutations st ++ replicate k (sync_lock st)) as Hloop.
    { clear. intros l. induction l as [|[id0 c0] l IH]; intros st.
      { exists 0. simpl. by rewrite app_nil_r. }
      rewrite for_each_cons, merge_item_run.
      destruct (merge_choice _ _) as [[]|]; [|by apply IH|].
      - destruct (IH (set_entries (<[id0:=c0]>) st)) as [k Hk].
        exists (S k). rewrite Hk. simpl. by rewrite <-(assoc_L (++)).
      - exists 0. simpl. by rewrite app_nil_r. }
    destruct (Hloop l (set_sync_lock true st)) as [k Hk]. exists k.
    destruct (for_each l merge_item (set_sync_lock true st))
      as [[[]|e] st1]; [|done].
    destruct (update_local_cache_run st1) as (st2 & -> & _ & _ & _ & Hm & _).
    simpl. by rewrite Hm.
  - rewrite sync_cycle_unavailable by done. exists 0. simpl.
    by rewrite app_nil_r.
Qed.

(** C7. [load_entries] changes [self.entries] without taking
    [self.sync_lock]: called with the lock free, as the key binding of
    [manual_refresh] calls it, it makes at least one mutation of
    [self.entries] and makes all of them with the lock free, whatever the
    server answers. *)
Theorem load_entries_mutates_unlocked resp st :
  sync_lock st = false →
  ∃ k, mutations (load_entries resp st).2
       = mutations st ++ replicate (S k) false.
Proof.
  intros Hfree. destruct (fetched resp) as [l|] eqn:Hf.
  - rewrite (load_entries_fetched _ _ _ Hf).
    destruct (update_local_cache_run (set_entries (λ _, list_to_map l) st))
      as (st' & -> & _ & _ & _ & Hm & _).
    exists 0. simpl. rewrite Hm. simpl. by rewrite Hfree.
  - rewrite (load_entries_unavailable _ _ Hf).
    destruct (load_from_cache_run st) as (st' & -> & _ & _ & _ & [k Hk] & _).
    exists k. simpl. by rewrite Hk, Hfree.
Qed.

(** [load_entries_mutates_unlocked] on the empty journal, the server out
    of reach. *)
Lemma load_entries_mutates_unlocked_witness :
  ∃ k, mutations (load_entries Unreachable empty_journal).2
       = mutations empty_journal ++ replicate (S k) false.
Proof.
  apply (load_entries_mutates_unlocked Unreachable empty_journal).
  reflexivity.
Defined.

(** * Further properties of the engine *)

(** ** [delete_entry] *)

Lemma delete_entry_entries date_str del st :
  entries (delete_entry date_str del st).2 = delete date_str (entries st).
Proof.
  rewrite delete_entry_run. simpl.
  destruct (entries st !! date_str) as [e|] eqn:He.
  - rewrite (bool_decide_eq_true_2 (is_Some (Some e))) by eauto.
    by repeat (case_bool_decide || case_decide).
  - rewrite (bool_decide_eq_false_2 (is_Some None)) by by intros [? [=]].
    rewrite delete_id by done.
    by repeat (case_bool_decide || case_decide).
Qed.

(** X1. [delete_entry] forgets the id in [self.entries] whatever the server
    answers and whether or not the id was held; it removes the file of the
    id when there is one, and the caller sees [OSError] exactly when that
    file is there and the file system refuses to remove it; the answer of
    the server changes neither the outcome nor the state. *)
Theorem delete_entry_forgets date_str del st :
  entries (delete_entry date_str del st).2 = delete date_str (entries st)
  ∧ (delete_entry date_str del st).1
    = (if bool_decide (is_Some (files st !! json_name date_str)
                       ∧ json_name date_str ∈ denied st)
       then Raise OSError else Ret ())
  ∧ files (delete_entry date_str del st).2
    = (if bool_decide (json_name date_str ∈ denied st)
       then files st else delete (json_name date_str) (files st))
  ∧ delete_entry date_str del st = delete_entry date_str Unreachable st.
Proof.
  rewrite !delete_entry_run. simpl.
  destruct (entries st !! date_str) as [e|] eqn:He;
    destruct (files st !! json_name date_str) as [b|] eqn:Hb;
    destruct (decide (json_name date_str ∈ denied st)) as [Hd|Hd].
  all: rewrite ?(bool_decide_eq_true_2 (is_Some (Some _))) by eauto.
  all: rewrite ?(bool_decide_eq_false_2 (is_Some None)) by by intros [? [=]].
  all: rewrite ?(bool_decide_eq_true_2 (json_name date_str ∈ denied st)),
         ?(bool_decide_eq_false_2 (json_name date_str ∈ denied st)) by done.
  all: simpl.
  all: rewrite ?(bool_decide_eq_true_2 (_ ∧ _)) by eauto.
  all: rewrite ?(bool_decide_eq_false_2 (_ ∧ _)) by by intros [_ ?].
  all: rewrite ?(delete_id (entries st)), ?(delete_id (files st)) by done.
  all: done.
Qed.

(** ** The lock around the three critical sections *)

(** X2. [save_entry], [delete_entry] and a cycle of [background_sync] that
    fetched something make every mutation of [self.entries] with
    [sync_lock] held, and leave the lock free when they end, also when they
    end on an exception. *)
Theorem critical_sections_hold_the_lock `{DateTime} :
  (∀ c st,
     sync_lock (run_call c st).2 = false
     ∧ ∃ k, mutations (run_call c st).2 = mutations st ++ replicate k true)
  ∧ (∀ resp server_entries st,
       fetched resp = Some server_entries →
       sync_lock (sync_cycle resp st).2 = false
       ∧ ∃ k, mutations (sync_cycle resp st).2
              = mutations st ++ replicate k true).
Proof.
  split.
  - intros [date_str content post|date_str del] st; simpl; split.
    + rewrite save_entry_run. simpl. by case_decide.
    + exists 1. apply save_entry_mutations.
    + rewrite delete_entry_run. simpl.
      by repeat (case_bool_decide || case_decide).
    + apply delete_entry_mutations.
  - intros resp server_entries st Hf. split; [|apply sync_cycle_mutations].
    by rewrite (sync_cycle_fetched _ _ _ Hf).
Qed.

(** ** More on one cycle of [background_sync] *)

Section cycle.
Context `{DateTime}.

(** The loop leaves [data/] and the output alone. *)
Lemma merge_loop_files (l : pydict) st :
  files (for_each l merge_item st).2 = files st
  ∧ stdout (for_each l merge_item st).2 = stdout st
  ∧ denied (for_each l merge_item st).2 = denied st.
Proof.
  revert st. induction l as [|[id0 c0] l IH]; intros st; [done|].
  rewrite for_each_cons, merge_item_run.
  destruct (merge_choice _ _) as [[]|]; [|apply IH|done].
  destruct (IH (set_entries (<[id0:=c0]>) st)) as (-> & -> & ->). done.
Qed.

(** The loop leaves alone the ids it is not given. *)
Lemma merge_loop_frame (l : pydict) st id :
  id ∉ l.*1 → entries (for_each l merge_item st).2 !! id = entries st !! id.
Proof.
  revert st. induction l as [|[id0 c0] l IH]; intros st Hid; [done|].
  simpl in Hid. apply not_elem_of_cons in Hid as [Hne Hid].
  rewrite for_each_cons, merge_item_run.
  destruct (merge_choice _ _) as [[]|]; [|by apply IH|done].
  rewrite IH by done. simpl. by rewrite lookup_insert_ne.
Qed.

(** An entry is never later than itself. *)
Lemma merge_choice_same content :
  merge_choice (Some content) content ≠ Ret true.
Proof.
  unfold merge_choice. destruct (_ && _); [|done].
  destruct (updated_at_time content) as [t|]; [|done].
  unfold later. by rewrite dt_gt_irrefl.
Qed.

(** When no item is taken, the loop changes nothing. *)
Lemma merge_loop_no_change (l : pydict) st :
  (∀ id content, (id, content) ∈ l →
     merge_choice (entries st !! id) content ≠ Ret true) →
  (for_each l merge_item st).2 = st.
Proof.
  induction l as [|[id0 c0] l IH]; intros Hno; [done|].
  rewrite for_each_cons, merge_item_run.
  pose proof (Hno id0 c0 (list_elem_of_here _ _)) as H0.
  destruct (merge_choice (entries st !! id0) c0) as [[]|]; [done| |done].
  apply IH. intros id content Hin. apply Hno. by apply list_elem_of_further.
Qed.

Lemma merge_loop_twice (l : pydict) st :
  NoDup l.*1 →
  entries (for_each l merge_item (for_each l merge_item st).2).2
  = entries (for_each l merge_item st).2.
Proof.
  revert st. induction l as [|[id0 c0] l IH]; intros st Hnd; [done|].
  simpl in Hnd. apply NoDup_cons in Hnd as [Hhd Hnd].
  assert (∀ st', merge_choice (entries st' !! id0) c0 ≠ Ret true →
    entries (for_each ((id0, c0) :: l) merge_item
               (for_each l merge_item st').2).2
    = entries (for_each l merge_item st').2) as Hnext.
  { intros st' Hno.
    destruct (merge_loop l st' Hnd)
      as (r & st1 & Hrun & _ & _ & _ & Hout & _).
    specialize (IH st' Hnd). rewrite Hrun in IH |- *. cbn [snd] in IH |- *.
    rewrite for_each_cons, merge_item_run, (Hout id0 Hhd).
    by destruct (merge_choice (entries st' !! id0) c0) as [[]|]. }
  rewrite (for_each_cons (id0, c0) l merge_item st), merge_item_run.
  destruct (merge_choice (entries st !! id0) c0) as [[]|e] eqn:Hchoice.
  - apply Hnext. simpl. rewrite lookup_insert_eq. apply merge_choice_same.
  - apply Hnext. by rewrite Hchoice.
  - cbn [snd]. by rewrite for_each_cons, merge_item_run, Hchoice.
Qed.

(** The loop reads nothing of the journal but [self.entries]. *)
Lemma merge_loop_entries_ext (l : pydict) st st' :
  entries st = entries st' →
  entries (for_each l merge_item st).2
  = entries (for_each l merge_item st').2.
Proof.
  revert st st'. induction l as [|[id0 c0] l IH]; intros st st' Heq; [done|].
  rewrite !for_each_cons, !merge_item_run, Heq.
  destruct (merge_choice (entries st' !! id0) c0) as [[]|]; [|by apply IH|done].
  apply IH. simpl. by rewrite Heq.
Qed.

(** X3. A second cycle of [background_sync] that fetches the same dict as
    the cycle before it leaves [self.entries] as that cycle left it,
    whether or not the merge ran to its end. *)
Theorem sync_cycle_idempotent status_code server_entries st :
  NoDup server_entries.*1 →
  entries
    (sync_cycle (Response status_code server_entries)
       (sync_cycle (Response status_code server_entries) st).2).2
  = entries (sync_cycle (Response status_code server_entries) st).2.
Proof.
  intros Hnd.
  destruct (fetched (Response status_code server_entries)) as [l|] eqn:Hf.
  - assert (l = server_entries) as ->.
    { simpl in Hf. by case_bool_decide; simplify_eq. }
    rewrite (sync_cycle_entries _ _ (sync_cycle _ st).2 Hf).
    rewrite (sync_cycle_entries _ _ st Hf).
    etrans; [|apply (merge_loop_twice _ (set_sync_lock true st) Hnd)].
    apply merge_loop_entries_ext. simpl.
    apply (sync_cycle_entries _ _ st Hf).
  - by rewrite !(sync_cycle_unavailable _ _ Hf).
Qed.

(** X4. A cycle of [background_sync] never raises.  When nothing is fetched
    it leaves the journal as it is; when a dict is fetched it leaves as
    they are the entries whose ids the server did not send. *)
Theorem sync_cycle_frame resp st :
  (sync_cycle resp st).1 = Ret ()
  ∧ match fetched resp with
    | None => (sync_cycle resp st).2 = st
    | Some server_entries =>
        ∀ id, id ∉ server_entries.*1 →
          entries (sync_cycle resp st).2 !! id = entries st !! id
    end.
Proof.
  destruct (fetched resp) as [l|] eqn:Hf.
  - split; [by rewrite (sync_cycle_fetched _ _ _ Hf)|].
    intros id Hid. rewrite (sync_cycle_entries _ _ _ Hf).
    by rewrite merge_loop_frame.
  - by rewrite (sync_cycle_unavailable _ _ Hf).
Qed.

(** X5. A cycle of [background_sync] that fetches, for every id it fetches,
    the very entry [self.entries] holds under that id, leaves
    [self.entries] as it is. *)
Theorem sync_cycle_agreeing resp server_entries st :
  fetched resp = Some server_entries →
  (∀ id content, (id, content) ∈ server_entries →
     entries st !! id = Some content) →
  entries (sync_cycle resp st).2 = entries st.
Proof.
  intros Hf Hagree. rewrite (sync_cycle_entries _ _ _ Hf).
  rewrite merge_loop_no_change; [done|].
  intros id content Hin. simpl. rewrite (Hagree _ _ Hin).
  apply merge_choice_same.
Qed.

(** X6. When the items [merged] are merged without exception and the loop
    body raises on the item after them, the cycle still returns normally:
    [self.entries] is what a cycle over [merged] alone would leave, the
    items after the failing one are not looked at, [data/] is not written
    and nothing is printed. *)
Theorem sync_cycle_partial_merge merged id content rest st e :
  NoDup merged.*1 →
  well_dated (entries st) merged = true →
  merge_choice
    (entries (sync_cycle (Response 200 merged) st).2 !! id) content
    = Raise e →
  (sync_cycle (Response 200 (merged ++ (id, content) :: rest)) st).1 = Ret ()
  ∧ entries (sync_cycle (Response 200 (merged ++ (id, content) :: rest)) st).2
    = entries (sync_cycle (Response 200 merged) st).2
  ∧ files (sync_cycle (Response 200 (merged ++ (id, content) :: rest)) st).2
    = files st
  ∧ stdout (sync_cycle (Response 200 (merged ++ (id, content) :: rest)) st).2
    = stdout st.
Proof.
  intros Hnd Hwd Hraise.
  rewrite (sync_cycle_entries (Response 200 merged) merged st eq_refl)
    in Hraise |- *.
  destruct (merge_loop merged (set_sync_lock true st) Hnd)
    as (r & st1 & Hrun & Hfiles & Hout & _ & _ & _ & _ & Hret).
  rewrite (Hret Hwd) in Hrun. rewrite Hrun in Hraise |- *. simpl in Hraise.
  by rewrite (sync_cycle_stops_at_failure
    (Response 200 (merged ++ (id, content) :: rest))
    merged id content rest st st1 e eq_refl Hrun Hraise).
Qed.

(** X7. After a cycle of [background_sync] whose merge ran to its end, on a
    file system that accepts every write, every entry of [self.entries] is
    in [data/], in the file of its id, whatever [data/] held before. *)
Theorem sync_cycle_persists resp server_entries st :
  fetched resp = Some server_entries →
  NoDup server_entries.*1 →
  well_dated (entries st) server_entries = true →
  denied st = ∅ →
  ∀ id e, entries (sync_cycle resp st).2 !! id = Some e →
    files (sync_cycle resp st).2 !! json_name id = Some (Json e).
Proof.
  intros Hf Hnd Hwd Hden id e. rewrite (sync_cycle_fetched _ _ _ Hf).
  destruct (merge_loop server_entries (set_sync_lock true st) Hnd)
    as (r & st1 & Hrun & _ & _ & (Hd1 & _) & _ & _ & _ & Hret).
  rewrite (Hret Hwd) in Hrun. rewrite Hrun.
  destruct (update_local_cache_run st1)
    as (st2 & -> & He & _ & _ & _ & _ & _ & Hwr).
  simpl. rewrite He. intros Hid. apply Hwr; [done|].
  rewrite Hd1. simpl. rewrite Hden. apply not_elem_of_empty.
Qed.

(** X8. [background_sync], over any sequence of answers of the server,
    never raises and never forgets an id; and an id it ends with was
    either there at the start or a key of a dict it fetched. *)
Theorem background_sync_ids resps st :
  (background_sync resps st).1 = Ret ()
  ∧ dom (entries st) ⊆ dom (entries (background_sync resps st).2)
  ∧ ∀ id, is_Some (entries (background_sync resps st).2 !! id) →
      is_Some (entries st !! id)
      ∨ ∃ resp server_entries,
          resp ∈ resps ∧ fetched resp = Some server_entries
          ∧ id ∈ server_entries.*1.
Proof.
  split_and!.
  - unfold background_sync. revert st.
    induction resps as [|resp resps IH]; intros st; [done|].
    rewrite for_each_cons.
    destruct (fetched resp) as [l|] eqn:Hf.
    + rewrite (sync_cycle_fetched _ _ _ Hf). apply IH.
    + rewrite (sync_cycle_unavailable _ _ Hf). apply IH.
  - intros id Hid%elem_of_dom. apply elem_of_dom.
    by apply background_sync_never_removes.
  - unfold background_sync. revert st.
    induction resps as [|resp resps IH]; intros st id Hid; [by left|].
    rewrite for_each_cons in Hid.
    assert (for_each resps sync_cycle (sync_cycle resp st).2
            = match sync_cycle resp st with
              | (Ret _, st') => for_each resps sync_cycle st'
              | (Raise e, st') => (Raise e, st')
              end) as Heq.
    { destruct (fetched resp) as [l|] eqn:Hf.
      - by rewrite (sync_cycle_fetched _ _ _ Hf).
      - by rewrite (sync_cycle_unavailable _ _ Hf). }
    rewrite <-Heq in Hid.
    destruct (IH _ _ Hid) as [Hid1|(resp' & l' & Hin & Hf' & Hl')].
    + destruct (fetched resp) as [l|] eqn:Hf.
      * destruct (decide (id ∈ l.*1)) as [Hl|Hl].
        -- right. exists resp, l. split_and!; [apply list_elem_of_here|done..].
        -- left. rewrite (sync_cycle_entries _ _ _ Hf) in Hid1.
           by rewrite merge_loop_frame in Hid1.
      * left. by rewrite (sync_cycle_unavailable _ _ Hf) in Hid1.
    + right. exists resp', l'. split_and!; [|done..].
      by apply list_elem_of_further.
Qed.
End cycle.

(** ** The read of [data/] by [load_entries] *)

Lemma load_loop_printed l st d :
  d ∈ stdout (for_each l load_item st).2 ↔
  d ∈ stdout st
  ∨ ∃ f, d = ErrorLoading f ∧ f ∈ l ∧ endswith f ".json" = true
         ∧ ∀ e, files st !! f ≠ Some (Json e).
Proof.
  revert st. induction l as [|filename l IH]; intros st.
  { simpl. split; [by left|]. intros [?|(f & _ & []%elem_of_nil & _)]. done. }
  rewrite for_each_cons, load_item_run.
  set (st1 := if endswith filename ".json" then _ else st).
  assert (files st1 = files st) as Hfiles.
  { unfold st1. destruct (endswith _ _); [|done].
    by destruct (files st !! filename) as [[]|]. }
  assert (∀ d, d ∈ stdout st1 ↔
            d ∈ stdout st
            ∨ d = ErrorLoading filename ∧ endswith filename ".json" = true
              ∧ ∀ e, files st !! filename ≠ Some (Json e)) as Hst1.
  { intros d'. unfold st1. destruct (endswith filename ".json").
    - destruct (files st !! filename) as [[e|]|]; simpl.
      + split; [by left|]. intros [?|(_ & _ & Hno)]; [done|].
        by destruct (Hno e).
      + rewrite elem_of_app, list_elem_of_singleton. split.
        * intros [?|Hd]; [by left|by right].
        * intros [?|(Hd & _)]; [by left|by right].
      + rewrite elem_of_app, list_elem_of_singleton. split.
        * intros [?|Hd]; [by left|by right].
        * intros [?|(Hd & _)]; [by left|by right].
    - split; [by left|]. by intros [?|(_ & [=] & _)]. }
  rewrite IH, Hst1, Hfiles. split.
  - intros [[?|(-> & ? & ?)]|(f & -> & Hin & ? & ?)]; [by left| |].
    + right. exists filename. split_and!; [done|apply list_elem_of_here|done..].
    + right. exists f. split_and!; [done|by apply list_elem_of_further|done..].
  - intros [?|(f & -> & [->|Hin]%elem_of_cons & ? & ?)].
    + by left; left.
    + left. right. done.
    + right. exists f. done.
Qed.

(** X9. When it fetches nothing, [load_entries] prints one kind of line:
    a line for each file of [data/] whose name ends in [.json] and that
    does not decode, and no other.  Such a file stops nothing: the call
    returns normally and every file that decodes is loaded. *)
Theorem load_entries_reports_undecodable resp st :
  fetched resp = None →
  (load_entries resp st).1 = Ret ()
  ∧ (∀ d, d ∈ stdout (load_entries resp st).2 ↔
       d ∈ stdout st
       ∨ ∃ f, d = ErrorLoading f ∧ endswith f ".json" = true
              ∧ files st !! f = Some Garbage)
  ∧ (∀ id e, files st !! json_name id = Some (Json e) →
       entries (load_entries resp st).2 !! id = Some e).
Proof.
  intros Hf. rewrite (load_entries_unavailable _ _ Hf). split_and!.
  - by destruct (load_from_cache_run st) as (st' & -> & _).
  - intros d.
    change (load_from_cache st) with
      (for_each (map_to_list (files st)).*1 load_item
         (set_entries (λ _, ∅) st)).
    rewrite load_loop_printed. simpl. split.
    + intros [?|(f & -> & Hin & Hend & Hno)]; [by left|right].
      exists f. split_and!; [done..|].
      apply list_elem_of_fmap in Hin as ([f' b] & -> & Hin).
      apply elem_of_map_to_list in Hin. simpl in *.
      destruct b as [e|]; [by destruct (Hno e)|done].
    + intros [?|(f & -> & Hend & Hg)]; [by left|right].
      exists f. split_and!; [done| |done|by rewrite Hg].
      apply list_elem_of_fmap. exists (f, Garbage). split; [done|].
      by apply elem_of_map_to_list.
  - intros id e Hid.
    destruct (load_from_cache_run st) as (st' & -> & _ & _ & _ & _ & Hent).
    simpl. by rewrite Hent, Hid.
Qed.

(** ** Instances of the properties above *)

Lemma sync_cycle_idempotent_witness :
  entries
    (sync_cycle (H := naive_iso)
       (Response 200 [("2024-01-01", stamped "b" "2024-01-01T11:00:00")])
       (sync_cycle (H := naive_iso)
          (Response 200 [("2024-01-01", stamped "b" "2024-01-01T11:00:00")])
          (holding {["2024-01-01" := stamped "a" "2024-01-01T10:00:00"]})).2).2
  = entries
      (sync_cycle (H := naive_iso)
         (Response 200 [("2024-01-01", stamped "b" "2024-01-01T11:00:00")])
         (holding {["2024-01-01" := stamped "a" "2024-01-01T10:00:00"]})).2.
Proof.
  apply (sync_cycle_idempotent (H := naive_iso)). apply NoDup_singleton.
Defined.

Lemma sync_cycle_agreeing_witness :
  entries
    (sync_cycle (H := naive_iso)
       (Response 200 [("2024-01-01", stamped "a" "2024-01-01T10:00:00")])
       (holding {["2024-01-01" := stamped "a" "2024-01-01T10:00:00"]})).2
  = entries (holding {["2024-01-01" := stamped "a" "2024-01-01T10:00:00"]}).
Proof.
  apply (sync_cycle_agreeing (H := naive_iso) _
           [("2024-01-01", stamped "a" "2024-01-01T10:00:00")]).
  - reflexivity.
  - intros id content Hin. apply list_elem_of_singleton in Hin.
    injection Hin as -> ->. reflexivity.
Defined.

Lemma sync_cycle_partial_merge_witness :
  let st := holding {["2024-01-01" := stamped "a" "2024-01-01T10:00:00"]} in
  let merged := [("2024-01-03", stamped "n" "2024-01-03T08:00:00")] in
  let rest := [("2024-01-02", stamped "c" "2024-01-02T09:00:00")] in
  let resp :=
    Response 200 (merged ++ ("2024-01-01", stamped "b" "soon") :: rest) in
  (sync_cycle (H := naive_iso) resp st).1 = Ret ()
  ∧ entries (sync_cycle (H := naive_iso) resp st).2
    = entries (sync_cycle (H := naive_iso) (Response 200 merged) st).2
  ∧ files (sync_cycle (H := naive_iso) resp st).2 = files st
  ∧ stdout (sync_cycle (H := naive_iso) resp st).2 = stdout st.
Proof.
  apply (sync_cycle_partial_merge (H := naive_iso)
           [("2024-01-03", stamped "n" "2024-01-03T08:00:00")]
           "2024-01-01" (stamped "b" "soon")
           [("2024-01-02", stamped "c" "2024-01-02T09:00:00")]
           (holding {["2024-01-01" := stamped "a" "2024-01-01T10:00:00"]})
           ValueError).
  - apply NoDup_singleton.
  - reflexivity.
  - vm_compute. reflexivity.
Defined.

Lemma sync_cycle_persists_witness :
  files
    (sync_cycle (H := naive_iso)
       (Response 200 [("2024-01-02", stamped "c" "2024-01-02T09:00:00")])
       (holding {["2024-01-01" := stamped "a" "2024-01-01T10:00:00"]})).2
    !! json_name "2024-01-01"
  = Some (Json (stamped "a" "2024-01-01T10:00:00")).
Proof.
  apply (sync_cycle_persists (H := naive_iso)
           (Response 200 [("2024-01-02", stamped "c" "2024-01-02T09:00:00")])
           [("2024-01-02", stamped "c" "2024-01-02T09:00:00")]).
  - reflexivity.
  - apply NoDup_singleton.
  - reflexivity.
  - reflexivity.
  - vm_compute. reflexivity.
Defined.

Lemma load_entries_reports_undecodable_witness :
  let st := Journal ∅ {["torn.json" := Garbage]} ∅ false [] [] in
  (load_entries Unreachable st).1 = Ret ()
  ∧ (∀ d, d ∈ stdout (load_entries Unreachable st).2 ↔
       d ∈ stdout st
       ∨ ∃ f, d = ErrorLoading f ∧ endswith f ".json" = true
              ∧ files st !! f = Some Garbage)
  ∧ (∀ id e, files st !! json_name id = Some (Json e) →
       entries (load_entries Unreachable st).2 !! id = Some e).
Proof.
  apply (load_entries_reports_undecodable Unreachable
           (Journal ∅ {["torn.json" := Garbage]} ∅ false [] [])).
  reflexivity.
Defined.

(** * The server *)

(** ** [jsonify] *)

Global Instance key_le_total : Total key_le.
Proof. intros a b. apply (total String.le). Qed.

Global Instance key_le_trans : Transitive key_le.
Proof. intros a b c. unfold key_le. apply transitivity. Qed.

Lemma elem_of_jsonify d id e : (id, e) ∈ jsonify d ↔ d !! id = Some e.
Proof.
  unfold jsonify. rewrite merge_sort_Permutation. apply elem_of_map_to_list.
Qed.

Lemma NoDup_jsonify d : NoDup (jsonify d).*1.
Proof.
  unfold jsonify. rewrite merge_sort_Permutation. apply NoDup_fst_map_to_list.
Qed.

Lemma list_to_map_jsonify d : list_to_map (jsonify d) = d.
Proof.
  rewrite <-(list_to_map_to_list d) at 2.
  apply list_to_map_proper; [apply NoDup_jsonify|].
  apply merge_sort_Permutation.
Qed.

(** ** The loop of [get_entries] *)

Lemma Server_load_item_lookup fs acc filename id :
  (Server.load_item fs acc filename).1 !! id =
    if decide (filename = json_name id) then
      match fs !! filename with
      | Some (Json e) => Some e
      | _ => acc.1 !! id
      end
    else acc.1 !! id.
Proof.
  unfold Server.load_item. case_decide as Hf.
  - subst. rewrite endswith_json_name, drop_last_json_name.
    destruct (fs !! json_name id) as [[e|]|]; simpl; [|done..].
    by rewrite lookup_insert_eq.
  - destruct (endswith filename ".json") eqn:Hend; [|done].
    destruct (fs !! filename) as [[e|]|]; simpl; [|done..].
    rewrite lookup_insert_ne; [done|].
    intros <-. by apply Hf, endswith_json_inv.
Qed.

Lemma Server_load_loop fs l acc id :
  (foldl (Server.load_item fs) acc l).1 !! id =
    if decide (json_name id ∈ l) then
      match fs !! json_name id with
      | Some (Json e) => Some e
      | _ => acc.1 !! id
      end
    else acc.1 !! id.
Proof.
  revert acc. induction l as [|filename l IH]; intros acc; cbn [foldl].
  { case_decide as Hin; [by apply elem_of_nil in Hin|done]. }
  rewrite IH, Server_load_item_lookup.
  destruct (decide (filename = json_name id)) as [->|Hne].
  - rewrite (decide_True (P := json_name id ∈ json_name id :: l))
      by apply list_elem_of_here.
    case_decide; by destruct (fs !! json_name id) as [[]|].
  - destruct (decide (json_name id ∈ l)) as [Hin|Hin].
    + by rewrite decide_True by by apply list_elem_of_further.
    + rewrite decide_False; [done|].
      by intros [?|?]%elem_of_cons.
Qed.

Lemma Server_load_loop_printed fs l acc d :
  d ∈ (foldl (Server.load_item fs) acc l).2 ↔
  d ∈ acc.2
  ∨ ∃ f, d = ErrorLoading f ∧ f ∈ l ∧ endswith f ".json" = true
         ∧ ∀ e, fs !! f ≠ Some (Json e).
Proof.
  revert acc. induction l as [|filename l IH]; intros acc; cbn [foldl].
  { split; [by left|]. intros [?|(f & _ & []%elem_of_nil & _)]. done. }
  rewrite IH.
  assert (d ∈ (Server.load_item fs acc filename).2 ↔
          d ∈ acc.2
          ∨ d = ErrorLoading filename ∧ endswith filename ".json" = true
            ∧ ∀ e, fs !! filename ≠ Some (Json e)) as ->.
  { unfold Server.load_item. destruct (endswith filename ".json").
    - destruct (fs !! filename) as [[e|]|]; simpl.
      + split; [by left|]. intros [?|(_ & _ & Hno)]; [done|].
        by destruct (Hno e).
      + rewrite elem_of_app, list_elem_of_singleton. split.
        * intros [?|Hd]; [by left|by right].
        * intros [?|(Hd & _)]; [by left|by right].
      + rewrite elem_of_app, list_elem_of_singleton. split.
        * intros [?|Hd]; [by left|by right].
        * intros [?|(Hd & _)]; [by left|by right].
    - split; [by left|]. by intros [?|(_ & [=] & _)]. }
  split.
  - intros [[?|(-> & ? & ?)]|(f & -> & Hin & ? & ?)]; [by left| |].
    + right. exists filename. split_and!; [done|apply list_elem_of_here|done..].
    + right. exists f. split_and!; [done|by apply list_elem_of_further|done..].
  - intros [?|(f & -> & [->|Hin]%elem_of_cons & ? & ?)].
    + by left; left.
    + left. right. done.
    + right. exists f. done.
Qed.

(** The dict that [get_entries] builds. *)
Lemma Server_loaded srv id :
  (foldl (Server.load_item (Server.files srv)) (∅, [])
     (map_to_list (Server.files srv)).*1).1 !! id =
    match Server.files srv !! json_name id with
    | Some (Json e) => Some e
    | _ => None
    end.
Proof.
  rewrite Server_load_loop. simpl. case_decide as Hin; [done|].
  destruct (Server.files srv !! json_name id) as [b|] eqn:Hb; [|done].
  destruct Hin. apply list_elem_of_fmap. exists (json_name id, b).
  split; [done|]. by apply elem_of_map_to_list.
Qed.

Lemma elem_of_served srv id e :
  (id, e) ∈ (Server.get_entries srv).1.2 ↔
  Server.files srv !! json_name id = Some (Json e).
Proof.
  simpl. rewrite elem_of_jsonify, Server_loaded.
  destruct (Server.files srv !! json_name id) as [[e'|]|]; naive_solver.
Qed.

(** X10. [GET /entries] answers 200 with the entries of the files of
    [DATA_DIR] that are named [<id>.json] and decode, each under its id,
    the ids in increasing order and so without repetition; it prints a line
    for each file named [*.json] that does not decode and for no other, and
    it leaves the files as they are. *)
Theorem get_entries_serves_decodable srv :
  (Server.get_entries srv).1.1 = 200%Z
  ∧ Server.files (Server.get_entries srv).2 = Server.files srv
  ∧ Server.denied (Server.get_entries srv).2 = Server.denied srv
  ∧ StronglySorted key_le (Server.get_entries srv).1.2
  ∧ NoDup (Server.get_entries srv).1.2.*1
  ∧ (∀ id e, (id, e) ∈ (Server.get_entries srv).1.2 ↔
       Server.files srv !! json_name id = Some (Json e))
  ∧ (∀ d, d ∈ Server.stdout (Server.get_entries srv).2 ↔
       d ∈ Server.stdout srv
       ∨ ∃ f, d = ErrorLoading f ∧ endswith f ".json" = true
              ∧ Server.files srv !! f = Some Garbage).
Proof.
  split_and!; [done..| | | |].
  - apply (StronglySorted_merge_sort key_le).
  - apply NoDup_jsonify.
  - apply elem_of_served.
  - intros d. simpl. rewrite elem_of_app, Server_load_loop_printed. simpl.
    split.
    + intros [?|[[]%elem_of_nil|(f & -> & Hin & Hend & Hno)]]; [by left|].
      right. exists f. split_and!; [done..|].
      apply list_elem_of_fmap in Hin as ([f' b] & -> & Hin).
      apply elem_of_map_to_list in Hin. simpl in *.
      destruct b as [e|]; [by destruct (Hno e)|done].
    + intros [?|(f & -> & Hend & Hg)]; [by left|right; right].
      exists f. split_and!; [done| |done|by rewrite Hg].
      apply list_elem_of_fmap. exists (f, Garbage). split; [done|].
      by apply elem_of_map_to_list.
Qed.


(** X12. [DELETE /entries/<id>]: 404 and nothing changed when the id has no
    file; 500 and nothing changed when the file cannot be removed;
    otherwise 200, after which [GET /entries/<id>] answers 404 and the
    answer for every other id is what it was. *)
Theorem delete_entry_then_get_entry date_str srv :
  match Server.files srv !! json_name date_str with
  | None => Server.delete_entry date_str srv
            = ((404%Z, Server.not_found), srv)
  | Some _ =>
      if decide (json_name date_str ∈ Server.denied srv)
      then Server.delete_entry date_str srv
           = ((500%Z, Server.Error OSError), srv)
      else (Server.delete_entry date_str srv).1 = (200%Z, Server.success)
           ∧ (Server.get_entry date_str
                (Server.delete_entry date_str srv).2).1
             = (404%Z, Server.not_found)
           ∧ ∀ other, other ≠ date_str →
               (Server.get_entry other
                  (Server.delete_entry date_str srv).2).1
               = (Server.get_entry other srv).1
  end.
Proof.
  unfold Server.delete_entry.
  destruct (Server.files srv !! json_name date_str) as [b|] eqn:Hb.
  - rewrite bool_decide_eq_true_2 by eauto.
    case_decide as Hd; [done|]. split_and!; [done| |].
    + unfold Server.get_entry. simpl. by rewrite lookup_delete_eq.
    + intros other Hne. unfold Server.get_entry. cbn [Server.files fst snd].
      rewrite lookup_delete_ne by by intros ?%json_name_inj.
      by destruct (Server.files srv !! json_name other) as [[]|].
  - by rewrite bool_decide_eq_false_2 by by intros [? [=]].
Qed.

(** * Journal and server together *)

Lemma exchange_get_entries_files lk srv :
  Server.files (exchange lk Server.get_entries srv).2 = Server.files srv.
Proof. by destruct lk. Qed.

Lemma exchange_get_entries_fetched lk srv server_entries :
  fetched (exchange lk Server.get_entries srv).1 = Some server_entries →
  server_entries = (Server.get_entries srv).1.2.
Proof. destruct lk; [|done..]. by intros [= <-]. Qed.

(** X13. A journal saves an entry while the server is reachable and can
    write the file; another journal that then starts and reaches the server
    holds that entry under that id, and under every other id what the
    server had in a file that decodes. *)
Theorem remote_save_then_remote_load date_str content srv st_a st_b :
  json_name date_str ∉ Server.denied srv →
  let saved := remote_save Up date_str content srv st_a in
  let loaded := remote_load Up saved.2 st_b in
  loaded.1.1 = Ret ()
  ∧ entries loaded.1.2 !! date_str = Some content
  ∧ (∀ id, id ≠ date_str →
       entries loaded.1.2 !! id =
         match Server.files srv !! json_name id with
         | Some (Json e) => Some e
         | _ => None
         end)
  ∧ Server.files loaded.2
    = <[json_name date_str := Json content]> (Server.files srv).
Proof.
  intros Hd saved loaded.
  assert (Server.files saved.2
          = <[json_name date_str := Json content]> (Server.files srv))
    as Hfiles.
  { unfold saved, remote_save, exchange, Server.save_entry. simpl.
    by rewrite decide_False by done. }
  unfold loaded, remote_load. generalize dependent saved.2. clear saved.
  intros srv1 _ Hfiles. cbn [fst snd].
  rewrite (load_entries_fetched _ (Server.get_entries srv1).1.2) by done.
  destruct (update_local_cache_run
    (set_entries (λ _, list_to_map (Server.get_entries srv1).1.2) st_b))
    as (st' & -> & He & _).
  cbn [fst snd]. rewrite He, exchange_get_entries_files, Hfiles.
  cbn [entries set_entries Server.get_entries fst snd].
  rewrite list_to_map_jsonify.
  split_and!; [done| | |done].
  - by rewrite Server_loaded, Hfiles, lookup_insert_eq.
  - intros id Hne. rewrite Server_loaded, Hfiles.
    by rewrite lookup_insert_ne by by intros ?%json_name_inj.
Qed.

Section together.
Context `{DateTime}.

Lemma remote_sync_absent lk srv st date_str :
  Server.files srv !! json_name date_str = None →
  entries st !! date_str = None →
  Server.files (remote_sync lk srv st).2 = Server.files srv
  ∧ entries (remote_sync lk srv st).1.2 !! date_str = None.
Proof.
  intros Hsrv Hst. unfold remote_sync. cbn [fst snd].
  split; [apply exchange_get_entries_files|].
  destruct (fetched (exchange lk Server.get_entries srv).1) as [l|] eqn:Hf.
  - rewrite (sync_cycle_entries _ _ _ Hf), merge_loop_frame; [done|].
    apply exchange_get_entries_fetched in Hf as ->.
    intros ([id e] & -> & Hin)%list_elem_of_fmap.
    apply elem_of_served in Hin. simpl in Hsrv. by rewrite Hsrv in Hin.
  - by rewrite (sync_cycle_unavailable _ _ Hf).
Qed.

Lemma remote_background_sync_files lks srv st :
  Server.files (remote_background_sync lks srv st).2 = Server.files srv.
Proof.
  unfold remote_background_sync. generalize (Ret () : outcome ()).
  revert srv st. induction lks as [|lk lks IH]; intros srv st r; [done|].
  cbn [foldl fst snd].
  destruct (remote_sync lk srv st) as [[r1 st1] srv1] eqn:Hstep.
  rewrite IH. replace srv1 with (remote_sync lk srv st).2 by by rewrite Hstep.
  apply exchange_get_entries_files.
Qed.

(** X14. A journal deletes an entry while the server is unreachable: the
    server keeps its file, and the next cycle of [background_sync] that
    reaches the server and merges all it fetched puts the entry of the
    server back into the journal. *)
Theorem offline_delete_comes_back date_str e srv st :
  Server.files srv !! json_name date_str = Some (Json e) →
  well_dated (delete date_str (entries st)) (Server.get_entries srv).1.2
    = true →
  let deleted := remote_delete Down date_str srv st in
  let synced := remote_sync Up deleted.2 deleted.1.2 in
  entries deleted.1.2 !! date_str = None
  ∧ deleted.2 = srv
  ∧ entries synced.1.2 !! date_str = Some e.
Proof.
  intros Hsrv Hwd deleted synced.
  assert (entries deleted.1.2 = delete date_str (entries st)) as Hdel
    by apply delete_entry_entries.
  split_and!; [by rewrite Hdel, lookup_delete_eq|done|].
  unfold synced, remote_sync. cbn [fst snd].
  change deleted.2 with srv. clear synced.
  generalize dependent deleted.1.2. clear deleted. intros st1 Hdel.
  rewrite (sync_cycle_entries _ (Server.get_entries srv).1.2) by done.
  destruct (merge_loop (Server.get_entries srv).1.2
              (set_sync_lock true st1) (NoDup_jsonify _))
    as (r & st' & -> & _ & _ & _ & _ & _ & Hin & Hret).
  change (entries (set_sync_lock true st1)) with (entries st1) in Hin, Hret.
  rewrite Hdel in Hin, Hret.
  destruct (Hin (Hret Hwd) date_str e) as (b & Hb & Hst').
  { by apply elem_of_served. }
  cbn [snd]. rewrite Hst'.
  rewrite lookup_delete_eq in Hb |- *. by injection Hb as <-.
Qed.

(** X15. A journal deletes an entry while the server is reachable and can
    remove the file: the server has no file for the id any more, and after
    any number of cycles of [background_sync], whatever the network does,
    the journal still has no entry under the id. *)
Theorem online_delete_stays_deleted date_str srv st lks :
  json_name date_str ∉ Server.denied srv →
  let deleted := remote_delete Up date_str srv st in
  let synced := remote_background_sync lks deleted.2 deleted.1.2 in
  Server.files synced.2 !! json_name date_str = None
  ∧ entries synced.1.2 !! date_str = None.
Proof.
  intros Hd deleted synced.
  assert (Server.files deleted.2 !! json_name date_str = None) as Hsrv.
  { unfold deleted, remote_delete, exchange, Server.delete_entry.
    cbn [fst snd].
    destruct (Server.files srv !! json_name date_str) as [b|] eqn:Hb.
    - rewrite bool_decide_eq_true_2 by eauto.
      rewrite decide_False by done. simpl. by rewrite lookup_delete_eq.
    - by rewrite bool_decide_eq_false_2 by by intros [? [=]]. }
  assert (entries deleted.1.2 !! date_str = None) as Hst.
  { unfold deleted, remote_delete. cbn [fst snd].
    by rewrite delete_entry_entries, lookup_delete_eq. }
  unfold synced, remote_background_sync.
  generalize (Ret () : outcome ()).
  revert Hsrv Hst. generalize deleted.2 deleted.1.2. clear.
  induction lks as [|lk lks IH]; intros srv st Hsrv Hst r; [done|].
  cbn [foldl fst snd].
  destruct (remote_sync_absent lk srv st date_str Hsrv Hst) as [Hf He].
  destruct (remote_sync lk srv st) as [[r1 st1] srv1].
  cbn [fst snd] in Hf, He. apply IH; [by rewrite Hf|done].
Qed.

(** X16. [background_sync] never changes the files of the server, and a
    [save_entry] or [delete_entry] whose request does not reach the server
    leaves the server as it is: what a journal saves or deletes while the
    server is unreachable is never sent again. *)
Theorem background_sync_never_uploads lks date_str content srv st :
  Server.files (remote_background_sync lks srv st).2 = Server.files srv
  ∧ (remote_save Down date_str content srv st).2 = srv
  ∧ (remote_delete Down date_str srv st).2 = srv
  ∧ Server.files
      (remote_background_sync lks
         (remote_save Down date_str content srv st).2
         (remote_save Down date_str content srv st).1.2).2
    = Server.files srv.
Proof.
  split_and!; [apply remote_background_sync_files|done..|].
  apply remote_background_sync_files.
Qed.
End together.

Lemma remote_save_then_remote_load_witness :
  let srv := Server.Store ∅ ∅ [] in
  let saved :=
    remote_save Up "2024-01-01" (undated "a") srv empty_journal in
  let loaded := remote_load Up saved.2 empty_journal in
  loaded.1.1 = Ret ()
  ∧ entries loaded.1.2 !! "2024-01-01" = Some (undated "a")
  ∧ (∀ id, id ≠ "2024-01-01" →
       entries loaded.1.2 !! id =
         match Server.files srv !! json_name id with
         | Some (Json e) => Some e
         | _ => None
         end)
  ∧ Server.files loaded.2
    = <[json_name "2024-01-01" := Json (undated "a")]> (Server.files srv).
Proof.
  apply (remote_save_then_remote_load "2024-01-01" (undated "a")
           (Server.Store ∅ ∅ []) empty_journal empty_journal).
  apply not_elem_of_empty.
Defined.

Lemma offline_delete_comes_back_witness :
  let e := stamped "a" "2024-01-01T10:00:00" in
  let srv := Server.Store {[json_name "2024-01-01" := Json e]} ∅ [] in
  let st := holding {["2024-01-01" := e]} in
  let deleted := remote_delete Down "2024-01-01" srv st in
  let synced := remote_sync (H := naive_iso) Up deleted.2 deleted.1.2 in
  entries deleted.1.2 !! "2024-01-01" = None
  ∧ deleted.2 = srv
  ∧ entries synced.1.2 !! "2024-01-01" = Some e.
Proof.
  apply (offline_delete_comes_back (H := naive_iso) "2024-01-01"
           (stamped "a" "2024-01-01T10:00:00")
           (Server.Store
              {[json_name "2024-01-01"
                  := Json (stamped "a" "2024-01-01T10:00:00")]} ∅ [])
           (holding {["2024-01-01" := stamped "a" "2024-01-01T10:00:00"]})).
  - vm_compute. reflexivity.
  - vm_compute. reflexivity.
Defined.

Lemma online_delete_stays_deleted_witness :
  let e := stamped "a" "2024-01-01T10:00:00" in
  let srv := Server.Store {[json_name "2024-01-01" := Json e]} ∅ [] in
  let st := holding {["2024-01-01" := e]} in
  let deleted := remote_delete Up "2024-01-01" srv st in
  let synced :=
    remote_background_sync (H := naive_iso) [Up; Down; Up]
      deleted.2 deleted.1.2 in
  Server.files synced.2 !! json_name "2024-01-01" = None
  ∧ entries synced.1.2 !! "2024-01-01" = None.
Proof.
  apply (online_delete_stays_deleted (H := naive_iso) "2024-01-01"
           (Server.Store
              {[json_name "2024-01-01"
                  := Json (stamped "a" "2024-01-01T10:00:00")]} ∅ [])
           (holding {["2024-01-01" := stamped "a" "2024-01-01T10:00:00"]})
           [Up; Down; Up]).
  apply not_elem_of_empty.
Defined.

(** * The terminal interface *)

(** ** [sorted] *)

Global Instance str_ge_total : Total str_ge.
Proof. intros a b. apply (total String.le). Qed.

Global Instance str_ge_trans : Transitive str_ge.
Proof. intros a b c Hab Hbc. unfold str_ge in *. by etrans. Qed.

Global Instance str_ge_antisymm : AntiSymm (=) str_ge.
Proof. intros a b Hab Hba. by apply (anti_symm String.le). Qed.

Lemma sorted_keys_Permutation d : sorted_keys d ≡ₚ (map_to_list d).*1.
Proof. apply merge_sort_Permutation. Qed.

Lemma elem_of_sorted_keys d id : id ∈ sorted_keys d ↔ is_Some (d !! id).
Proof.
  rewrite sorted_keys_Permutation. split.
  - intros ([k e] & -> & Hin%elem_of_map_to_list)%list_elem_of_fmap. eauto.
  - intros [e He]. apply list_elem_of_fmap. exists (id, e).
    split; [done|]. by apply elem_of_map_to_list.
Qed.

Lemma NoDup_sorted_keys d : NoDup (sorted_keys d).
Proof. rewrite sorted_keys_Permutation. apply NoDup_fst_map_to_list. Qed.

Lemma StronglySorted_sorted_keys d : StronglySorted str_ge (sorted_keys d).
Proof. apply (StronglySorted_merge_sort str_ge). Qed.

Lemma list_to_set_sorted_keys d :
  list_to_set (sorted_keys d) =@{gset string} dom d.
Proof.
  apply set_eq. intros id.
  by rewrite elem_of_list_to_set, elem_of_sorted_keys, elem_of_dom.
Qed.

Lemma sorted_keys_nil d : sorted_keys d = [] ↔ d = ∅.
Proof.
  split.
  - intros Hnil. apply map_empty. intros id.
    apply eq_None_not_Some. rewrite <-elem_of_sorted_keys, Hnil.
    apply not_elem_of_nil.
  - intros ->. apply Permutation_nil_r. rewrite sorted_keys_Permutation.
    by rewrite map_to_list_empty.
Qed.

(** ** Subscripts *)

Lemma UI_in_range_spec ui :
  UI.in_range ui = true ↔
  (0 ≤ UI.selected_index ui < Z.of_nat (length (UI.entries_list ui)))%Z.
Proof.
  unfold UI.in_range. rewrite andb_true_iff, !bool_decide_eq_true.
  split; [by intros [_ ?]|]. intros Hi. split; [|done].
  intros Hnil. rewrite Hnil in Hi. simpl in Hi. destruct Hi. lia.
Qed.

Lemma UI_getitem_Done l i :
  (0 ≤ i < Z.of_nat (length l))%Z →
  ∃ d, UI.getitem l i = UI.Done d ∧ l !! Z.to_nat i = Some d.
Proof.
  intros Hi. unfold UI.getitem.
  rewrite (bool_decide_eq_false_2 (i < 0)%Z) by lia.
  rewrite bool_decide_eq_true_2 by done.
  destruct (lookup_lt_is_Some_2 l (Z.to_nat i)) as [d Hd]; [lia|].
  exists d. by rewrite Hd.
Qed.

Lemma UI_index_Done l x :
  x ∈ l →
  ∃ i, UI.index l x = UI.Done (Z.of_nat i) ∧ l !! i = Some x.
Proof.
  intros Hx. unfold UI.index.
  destruct (list_find_elem_of (λ y, y = x) l x Hx eq_refl) as [[i y] Hfind].
  rewrite Hfind. apply list_find_Some in Hfind as (Hi & -> & _). eauto.
Qed.

(** ** The methods that show an entry *)

Lemma UI_load_current_entry_run ui :
  UI.load_current_entry ui =
    if UI.in_range ui then
      match UI.getitem (UI.entries_list ui) (UI.selected_index ui) with
      | UI.Done date_str =>
          match entries (UI.journal ui) !! date_str with
          | Some e =>
              if UI.is_text (UI.content_of e) then
                (UI.Done (),
                 UI.Ui (UI.journal ui) (UI.entries_list ui)
                   (UI.selected_index ui) false
                   ("Viewing entry from " +:+ date_str +:+ UI.keys_help)
                   (UI.content_of e) true)
              else (UI.Raised UI.TypeError, ui)
          | None => (UI.Raised (UI.KeyError date_str), ui)
          end
      | UI.Raised e => (UI.Raised e, ui)
      | UI.Unfinished => (UI.Unfinished, ui)
      end
    else (UI.Done (), ui).
Proof.
  unfold UI.load_current_entry. destruct (UI.in_range ui); [|done].
  unfold UI.bind, UI.selected.
  destruct (UI.getitem _ _) as [date_str| |]; [|done..].
  unfold UI.journal_entry.
  destruct (entries (UI.journal ui) !! date_str) as [e|]; [|done].
  unfold UI.seq, UI.bind, UI.assign_text.
  by destruct (UI.is_text (UI.content_of e)).
Qed.

Lemma UI_edit_current_entry_run ui :
  UI.edit_current_entry ui =
    if UI.in_range ui then
      match UI.getitem (UI.entries_list ui) (UI.selected_index ui) with
      | UI.Done date_str =>
          match entries (UI.journal ui) !! date_str with
          | Some e =>
              if UI.is_text (UI.content_of e) then
                (UI.Done (),
                 UI.Ui (UI.journal ui) (UI.entries_list ui)
                   (UI.selected_index ui) true
                   "Editing entry | Enter:Save | Esc:Cancel"
                   (UI.content_of e) false)
              else (UI.Raised UI.TypeError, ui)
          | None => (UI.Raised (UI.KeyError date_str), ui)
          end
      | UI.Raised e => (UI.Raised e, ui)
      | UI.Unfinished => (UI.Unfinished, ui)
      end
    else (UI.Done (), ui).
Proof.
  unfold UI.edit_current_entry. destruct (UI.in_range ui); [|done].
  unfold UI.bind, UI.selected.
  destruct (UI.getitem _ _) as [date_str| |]; [|done..].
  unfold UI.journal_entry.
  destruct (entries (UI.journal ui) !! date_str) as [e|]; [|done].
  unfold UI.seq, UI.bind, UI.assign_text.
  by destruct (UI.is_text (UI.content_of e)).
Qed.




Lemma load_entries_returns resp st :
  ∃ st', load_entries resp st = (Ret (), st').
Proof.
  destruct (fetched resp) as [l|] eqn:Hf.
  - rewrite (load_entries_fetched _ _ _ Hf).
    destruct (update_local_cache_run (set_entries (λ _, list_to_map l) st))
      as (st' & -> & _). by eexists.
  - rewrite (load_entries_unavailable _ _ Hf).
    destruct (load_from_cache_run st) as (st' & -> & _). by eexists.
Qed.

Lemma sync_cycle_returns `{DateTime} resp st :
  (sync_cycle resp st).1 = Ret ().
Proof.
  destruct (fetched resp) as [l|] eqn:Hf.
  - by rewrite (sync_cycle_fetched _ _ _ Hf).
  - by rewrite (sync_cycle_unavailable _ _ Hf).
Qed.

(** ** [save_current_entry] *)

(** The entry that [save_current_entry] hands to [save_entry]. *)
Lemma UI_fill_entry_data_run date_str now ui :
  UI.fill_entry_data date_str now ui =
    match entries (UI.journal ui) !! date_str with
    | Some e =>
        let e1 := <["content" := UI.text ui]> e in
        let e2 := <["updated_at" := JStr now]> e1 in
        (UI.Done e2,
         UI.Ui (set_entries (<[date_str := e2]>)
                  (set_entries (<[date_str := e1]>) (UI.journal ui)))
           (UI.entries_list ui) (UI.selected_index ui) (UI.edit_mode ui)
           (UI.status_message ui) (UI.text ui) (UI.read_only ui))
    | None =>
        (UI.Done (<["updated_at" := JStr now]>
                    (<["content" := UI.text ui]> ∅)), ui)
    end.
Proof.
  unfold UI.fill_entry_data.
  by destruct (entries (UI.journal ui) !! date_str).
Qed.

Lemma UI_save_current_entry_run now post ui date_str :
  UI.in_range ui = true →
  UI.getitem (UI.entries_list ui) (UI.selected_index ui)
    = UI.Done date_str →
  UI.save_current_entry now post ui =
    let filled := UI.fill_entry_data date_str now ui in
    match filled.1 with
    | UI.Done entry_data =>
        match save_entry date_str entry_data post (UI.journal filled.2) with
        | (Ret _, j) =>
            (UI.Done (),
             UI.Ui j (UI.entries_list ui) (UI.selected_index ui) false
               ("Entry saved" +:+ UI.keys_help) (UI.text ui) true)
        | (Raise e, j) =>
            (UI.Raised (UI.Exn e),
             UI.Ui j (UI.entries_list ui) (UI.selected_index ui)
               (UI.edit_mode ui) (UI.status_message ui) (UI.text ui)
               (UI.read_only ui))
        end
    | _ => (UI.Unfinished, ui)
    end.
Proof.
  intros Hr Hget. unfold UI.save_current_entry. rewrite Hr.
  unfold UI.bind at 1. unfold UI.selected. rewrite Hget.
  unfold UI.bind. rewrite UI_fill_entry_data_run.
  destruct (entries (UI.journal ui) !! date_str) as [e|]; cbn zeta;
    cbn [fst snd]; unfold UI.seq, UI.bind, UI.call;
    cbn [UI.journal UI.entries_list UI.selected_index UI.edit_mode
         UI.status_message UI.text UI.read_only];
    by destruct (save_entry _ _ _ _) as [[[]|] ?].
Qed.

(** ** Showing the selected entry *)

Lemma content_of_empty_entry created_at updated_at :
  UI.content_of (empty_entry created_at updated_at) = JStr "".
Proof. unfold UI.content_of, empty_entry. by rewrite lookup_insert_eq. Qed.

Lemma UI_selected_lookup ui d :
  (0 ≤ UI.selected_index ui)%Z →
  UI.entries_list ui !! Z.to_nat (UI.selected_index ui) = Some d →
  UI.in_range ui = true
  ∧ UI.getitem (UI.entries_list ui) (UI.selected_index ui) = UI.Done d.
Proof.
  intros Hi Hd.
  assert (0 ≤ UI.selected_index ui
          < Z.of_nat (length (UI.entries_list ui)))%Z as Hr.
  { apply lookup_lt_Some in Hd. lia. }
  split; [by apply UI_in_range_spec|].
  destruct (UI_getitem_Done _ _ Hr) as (d' & -> & Hd'). congruence.
Qed.

Lemma UI_in_range_selected ui :
  UI.in_range ui = true →
  ∃ d, UI.entries_list ui !! Z.to_nat (UI.selected_index ui) = Some d
    ∧ UI.getitem (UI.entries_list ui) (UI.selected_index ui) = UI.Done d
    ∧ (0 ≤ UI.selected_index ui
       < Z.of_nat (length (UI.entries_list ui)))%Z.
Proof.
  intros Hr%UI_in_range_spec.
  destruct (UI_getitem_Done _ _ Hr) as (d & ? & ?). by exists d.
Qed.

Lemma UI_load_current_entry_at ui d e :
  (0 ≤ UI.selected_index ui)%Z →
  UI.entries_list ui !! Z.to_nat (UI.selected_index ui) = Some d →
  entries (UI.journal ui) !! d = Some e →
  UI.is_text (UI.content_of e) = true →
  UI.load_current_entry ui =
    (UI.Done (),
     UI.Ui (UI.journal ui) (UI.entries_list ui) (UI.selected_index ui) false
       ("Viewing entry from " +:+ d +:+ UI.keys_help) (UI.content_of e) true).
Proof.
  intros Hi Hd He Ht. destruct (UI_selected_lookup ui d Hi Hd) as [Hr Hget].
  by rewrite UI_load_current_entry_run, Hr, Hget, He, Ht.
Qed.

Lemma UI_edit_current_entry_at ui d e :
  (0 ≤ UI.selected_index ui)%Z →
  UI.entries_list ui !! Z.to_nat (UI.selected_index ui) = Some d →
  entries (UI.journal ui) !! d = Some e →
  UI.is_text (UI.content_of e) = true →
  UI.edit_current_entry ui =
    (UI.Done (),
     UI.Ui (UI.journal ui) (UI.entries_list ui) (UI.selected_index ui) true
       "Editing entry | Enter:Save | Esc:Cancel" (UI.content_of e) false).
Proof.
  intros Hi Hd He Ht. destruct (UI_selected_lookup ui d Hi Hd) as [Hr Hget].
  by rewrite UI_edit_current_entry_run, Hr, Hget, He, Ht.
Qed.

(** On a content that is not a string the two methods raise [TypeError]
    and change nothing. *)
Lemma UI_load_current_entry_refused ui d e :
  (0 ≤ UI.selected_index ui)%Z →
  UI.entries_list ui !! Z.to_nat (UI.selected_index ui) = Some d →
  entries (UI.journal ui) !! d = Some e →
  UI.is_text (UI.content_of e) = false →
  UI.load_current_entry ui = (UI.Raised UI.TypeError, ui)
  ∧ UI.edit_current_entry ui = (UI.Raised UI.TypeError, ui).
Proof.
  intros Hi Hd He Ht. destruct (UI_selected_lookup ui d Hi Hd) as [Hr Hget].
  by rewrite UI_load_current_entry_run, UI_edit_current_entry_run,
    Hr, Hget, He, Ht.
Qed.

Lemma UI_textual_empty : UI.textual ∅.
Proof. intros id e He. by rewrite lookup_empty in He. Qed.

Lemma UI_textual_insert es id e :
  UI.is_text (UI.content_of e) = true →
  UI.textual es → UI.textual (<[id := e]> es).
Proof.
  intros Ht Hes id' e' [[_ <-]|[_ He]]%lookup_insert_Some; [done|].
  by apply (Hes id').
Qed.

Lemma UI_textual_singleton id e :
  UI.is_text (UI.content_of e) = true →
  UI.textual {[id := e]}.
Proof. intros Ht id' e' [_ <-]%lookup_singleton_Some. done. Qed.

(** On a list that names entries of the journal, all of them with a
    content that is a string, [load_current_entry] with the index in range
    ends with the selected entry shown. *)
Lemma UI_load_current_entry_shows ui :
  (∀ id, id ∈ UI.entries_list ui → is_Some (entries (UI.journal ui) !! id)) →
  UI.textual (entries (UI.journal ui)) →
  UI.in_range ui = true →
  ∃ d e,
    UI.entries_list ui !! Z.to_nat (UI.selected_index ui) = Some d
    ∧ entries (UI.journal ui) !! d = Some e
    ∧ UI.load_current_entry ui =
      (UI.Done (),
       UI.Ui (UI.journal ui) (UI.entries_list ui) (UI.selected_index ui)
         false ("Viewing entry from " +:+ d +:+ UI.keys_help)
         (UI.content_of e) true)
    ∧ UI.shows_selected (UI.load_current_entry ui).2.
Proof.
  intros Hlist Htext (d & Hd & _ & Hi)%UI_in_range_selected.
  destruct (Hlist d) as [e He]; [by eapply list_elem_of_lookup_2|].
  pose proof (Htext d e He) as Ht.
  exists d, e. split_and!; [done..| |].
  - apply UI_load_current_entry_at; [lia|done..].
  - rewrite (UI_load_current_entry_at ui d e) by (lia || done).
    by exists d, e.
Qed.

(** ** How a method that shows an entry ends *)



(** ** The list names entries of the journal *)

Ltac ui_simpl :=
  cbn [fst snd UI.journal UI.entries_list UI.selected_index UI.edit_mode
       UI.status_message UI.text UI.read_only].

Lemma UI_consistent_core ui ui' :
  UI.journal ui' = UI.journal ui →
  UI.entries_list ui' = UI.entries_list ui →
  UI.selected_index ui' = UI.selected_index ui →
  UI.consistent ui → UI.consistent ui'.
Proof. unfold UI.consistent. by intros -> -> ->. Qed.










(** X18. [delete_current_entry] on a selected entry whose file exists and
    cannot be removed: the [OSError] of [delete_entry] leaves the method
    after the journal has forgotten the id and before the list is made
    again, so the list still names the id.  [load_current_entry] and
    [edit_current_entry] then raise [KeyError] on it, and
    [save_current_entry] creates the entry again from nothing but the text
    on the screen and the time. *)
Theorem delete_current_entry_failure del ui date_str :
  UI.in_range ui = true →
  UI.getitem (UI.entries_list ui) (UI.selected_index ui)
    = UI.Done date_str →
  is_Some (files (UI.journal ui) !! json_name date_str) →
  json_name date_str ∈ denied (UI.journal ui) →
  let failed := UI.delete_current_entry del ui in
  failed.1 = UI.Raised (UI.Exn OSError)
  ∧ entries (UI.journal failed.2)
    = delete date_str (entries (UI.journal ui))
  ∧ UI.entries_list failed.2 = UI.entries_list ui
  ∧ UI.selected_index failed.2 = UI.selected_index ui
  ∧ UI.load_current_entry failed.2
    = (UI.Raised (UI.KeyError date_str), failed.2)
  ∧ UI.edit_current_entry failed.2
    = (UI.Raised (UI.KeyError date_str), failed.2)
  ∧ ∀ now post,
      entries (UI.journal (UI.save_current_entry now post failed.2).2)
        !! date_str
      = Some (<["updated_at" := JStr now]> (<["content" := UI.text ui]> ∅)).
Proof.
  intros Hr Hget Hfile Hden failed.
  assert (failed =
    (UI.Raised (UI.Exn OSError),
     UI.Ui (delete_entry date_str del (UI.journal ui)).2
       (UI.entries_list ui) (UI.selected_index ui) (UI.edit_mode ui)
       (UI.status_message ui) (UI.text ui) (UI.read_only ui))) as ->.
  { unfold failed, UI.delete_current_entry. rewrite Hr.
    unfold UI.bind at 1. unfold UI.selected. rewrite Hget.
    unfold UI.seq, UI.bind, UI.call. rewrite delete_entry_run. cbn zeta.
    rewrite (bool_decide_eq_true_2 _ Hfile), (decide_True _ _ Hden). done. }
  cbn [fst snd UI.journal UI.entries_list UI.selected_index].
  assert (entries (delete_entry date_str del (UI.journal ui)).2 !! date_str
          = None) as Hgone
    by by rewrite delete_entry_entries, lookup_delete_eq.
  split_and!; [done|apply delete_entry_entries|done..| | |].
  - rewrite UI_load_current_entry_run. unfold UI.in_range in *.
    cbn [UI.journal UI.entries_list UI.selected_index].
    by rewrite Hr, Hget, Hgone.
  - rewrite UI_edit_current_entry_run. unfold UI.in_range in *.
    cbn [UI.journal UI.entries_list UI.selected_index].
    by rewrite Hr, Hget, Hgone.
  - intros now post.
    rewrite (UI_save_current_entry_run now post _ date_str) by done.
    rewrite UI_fill_entry_data_run.
    cbn [UI.journal UI.entries_list UI.selected_index UI.text].
    rewrite Hgone. cbn zeta. cbn [fst snd UI.journal].
    rewrite save_entry_run. cbn zeta.
    case_decide; simpl; by rewrite lookup_insert_eq.
Qed.

(** X19. [save_current_entry] with an entry selected: the journal ends with,
    under the selected id, the entry it held there (or an empty dict if it
    held none) with [content] set to the text on the screen and
    [updated_at] to the time, every other field being kept, also when the
    write of the file fails; the method raises exactly when [save_entry]
    does, and otherwise the file holds the same entry and the edit mode is
    left.  The two fields of an entry the journal holds are set through the
    dict of the journal itself before [save_entry] takes the lock: of the
    three changes of the journal only the last is made under the lock.  The
    answer of the server plays no part. *)
Theorem save_current_entry_effect now post ui date_str :
  UI.in_range ui = true →
  UI.getitem (UI.entries_list ui) (UI.selected_index ui)
    = UI.Done date_str →
  let j := UI.journal ui in
  let old := default ∅ (entries j !! date_str) in
  let entry_data :=
    <["updated_at" := JStr now]> (<["content" := UI.text ui]> old) in
  let after := UI.save_current_entry now post ui in
  entries (UI.journal after.2) = <[date_str := entry_data]> (entries j)
  ∧ (∀ field, field ≠ "content" → field ≠ "updated_at" →
       entry_data !! field = old !! field)
  ∧ after.1 = (if decide (json_name date_str ∈ denied j)
               then UI.Raised (UI.Exn OSError) else UI.Done ())
  ∧ (json_name date_str ∉ denied j →
       files (UI.journal after.2) !! json_name date_str
         = Some (Json entry_data)
       ∧ UI.edit_mode after.2 = false ∧ UI.read_only after.2 = true)
  ∧ mutations (UI.journal after.2)
    = mutations j
      ++ (if entries j !! date_str is Some _
          then [sync_lock j; sync_lock j] else [])
      ++ [true]
  ∧ ∀ post', UI.save_current_entry now post' ui = after.
Proof.
  intros Hr Hget j old entry_data after.
  subst after entry_data old j.
  rewrite (UI_save_current_entry_run now post ui date_str Hr Hget).
  rewrite UI_fill_entry_data_run.
  destruct (entries (UI.journal ui) !! date_str) as [e|] eqn:He; cbn zeta;
    cbn [fst snd UI.journal default]; rewrite !save_entry_run; cbn zeta;
    cbn [denied set_entries set_sync_lock];
    destruct (decide (json_name date_str ∈ denied (UI.journal ui)))
      as [Hd|Hd]; simpl.
  - split_and!; [by rewrite !insert_insert_eq| |done|done| |].
    + intros field ? ?. by rewrite !lookup_insert_ne.
    + by rewrite <-!app_assoc.
    + intros post'.
      rewrite (UI_save_current_entry_run now post' ui date_str Hr Hget).
      rewrite UI_fill_entry_data_run, He. cbn zeta. cbn [fst snd UI.journal].
      rewrite save_entry_run. cbn zeta. cbn [denied set_entries].
      by rewrite decide_True.
  - split_and!; [by rewrite !insert_insert_eq| |done| | |].
    + intros field ? ?. by rewrite !lookup_insert_ne.
    + intros _. by rewrite lookup_insert_eq.
    + by rewrite <-!app_assoc.
    + intros post'.
      rewrite (UI_save_current_entry_run now post' ui date_str Hr Hget).
      rewrite UI_fill_entry_data_run, He. cbn zeta. cbn [fst snd UI.journal].
      rewrite save_entry_run. cbn zeta. cbn [denied set_entries].
      by rewrite decide_False.
  - split_and!; [done| |done|done|done|].
    + intros field ? ?. by rewrite !lookup_insert_ne.
    + intros post'.
      rewrite (UI_save_current_entry_run now post' ui date_str Hr Hget).
      rewrite UI_fill_entry_data_run, He. cbn zeta. cbn [fst snd UI.journal].
      rewrite save_entry_run. cbn zeta.
      by rewrite decide_True.
  - split_and!; [done| |done| |done|].
    + intros field ? ?. by rewrite !lookup_insert_ne.
    + intros _. by rewrite lookup_insert_eq.
    + intros post'.
      rewrite (UI_save_current_entry_run now post' ui date_str Hr Hget).
      rewrite UI_fill_entry_data_run, He. cbn zeta. cbn [fst snd UI.journal].
      rewrite save_entry_run. cbn zeta.
      by rewrite decide_False.
Qed.

(** X20. [get_entries_text] gives one line for each id of the list, in the
    order of the list, or the single line of the empty list; the line of an
    id carries the style of the selection exactly when its position is the
    index, so at most one line does, and one does exactly when the index is
    a position of the list. *)
Theorem get_entries_text_marks_selection ui :
  length (UI.get_entries_text ui) = max 1 (length (UI.entries_list ui))
  ∧ (∀ i date_str,
       UI.entries_list ui !! i = Some date_str →
       UI.get_entries_text ui !! i
       = Some (if bool_decide (Z.of_nat i = UI.selected_index ui)
               then "class:selected" else "",
               " " +:+ date_str +:+ " " +:+ newline))
  ∧ (∀ i line,
       UI.get_entries_text ui !! i = Some line →
       line.1 = "class:selected" →
       Z.of_nat i = UI.selected_index ui
       ∧ i < length (UI.entries_list ui))
  ∧ (UI.entries_list ui = [] →
     UI.get_entries_text ui = [("", " No entries available. " +:+ newline)]).
Proof.
  unfold UI.get_entries_text.
  destruct (UI.entries_list ui) as [|d0 l] eqn:Hl.
  { split_and!; [done|done| |done].
    intros [|i] line; [|done]. by intros [= <-]. }
  rewrite bool_decide_eq_false_2 by done. rewrite app_nil_r.
  split_and!.
  - rewrite length_imap. simpl. lia.
  - intros i date_str Hi. by rewrite list_lookup_imap, Hi.
  - intros i line. rewrite list_lookup_imap.
    destruct ((d0 :: l) !! i) as [d|] eqn:Hi; [|done].
    intros [= <-]. simpl. case_bool_decide; [|done]. intros _.
    split; [done|]. by apply lookup_lt_Some in Hi.
  - done.
Qed.

(** ** The list of ids, sorted *)

(** [sorted_keys d] is the one list that is sorted downwards and holds the
    ids of [d], each once. *)
Lemma sorted_keys_unique d l :
  StronglySorted str_ge l → NoDup l →
  (∀ id, id ∈ l ↔ is_Some (d !! id)) →
  sorted_keys d = l.
Proof.
  intros Hs Hn Hl. apply (StronglySorted_unique str_ge).
  - apply StronglySorted_sorted_keys.
  - done.
  - apply NoDup_Permutation; [apply NoDup_sorted_keys|done|].
    intros id. by rewrite elem_of_sorted_keys, Hl.
Qed.

Lemma sorted_keys_delete d i k :
  sorted_keys d !! i = Some k →
  sorted_keys (delete k d) = delete i (sorted_keys d).
Proof.
  intros Hi.
  pose proof (NoDup_sorted_keys d) as Hn.
  pose proof (StronglySorted_sorted_keys d) as Hs.
  pose proof (delete_Permutation _ _ _ Hi) as Hp.
  rewrite Hp in Hn. apply NoDup_cons in Hn as [Hk Hn].
  apply sorted_keys_unique; [|done|].
  - rewrite <-(take_drop_middle _ _ _ Hi) in Hs.
    rewrite delete_take_drop.
    apply StronglySorted_app in Hs as (H12 & H1 & H2).
    apply StronglySorted_app. split_and!; [|done|by inversion H2].
    intros x1 x2 Hx1 Hx2. apply H12; [done|]. by right.
  - intros id. rewrite lookup_delete_is_Some, <-elem_of_sorted_keys.
    rewrite (elem_of_Permutation_proper _ _ _ Hp), elem_of_cons.
    split; [intros ?; split; [by intros <-|by right]|].
    by intros [? [?|?]].
Qed.

Lemma sorted_keys_top d d' N :
  dom d' = {[N]} ∪ dom d →
  d !! N = None →
  (∀ id, is_Some (d !! id) → String.le id N) →
  sorted_keys d' = N :: sorted_keys d.
Proof.
  intros Hdom HN Htop. apply sorted_keys_unique.
  - constructor; [apply StronglySorted_sorted_keys|].
    apply Forall_forall. intros id Hid%elem_of_sorted_keys. by apply Htop.
  - apply NoDup_cons. split; [|apply NoDup_sorted_keys].
    rewrite elem_of_sorted_keys, HN. by intros [].
  - intros id. rewrite elem_of_cons, elem_of_sorted_keys.
    by rewrite <-!elem_of_dom, Hdom, elem_of_union, elem_of_singleton.
Qed.

(** The first id of the list is the greatest. *)
Lemma sorted_keys_head d k l :
  sorted_keys d = k :: l → ∀ id, is_Some (d !! id) → String.le id k.
Proof.
  intros Hl id Hid%elem_of_sorted_keys.
  pose proof (StronglySorted_sorted_keys d) as Hs. rewrite Hl in *.
  apply StronglySorted_inv in Hs as [_ Hall].
  apply elem_of_cons in Hid as [->|Hid]; [done|].
  by apply (proj1 (Forall_forall _ _) Hall).
Qed.

(** X21. [move_selection_up] and [move_selection_down], with the index in
    range on a list that names entries of the journal, the content of
    every entry being a string (or absent): both return, the index stays
    in range (it moves by one, and not past an end), journal and list are
    as before.  A move that changes the index ends with the newly selected
    entry shown read-only and the edit mode left, whatever was being
    typed; at an end of the list the method changes nothing, edit mode and
    text included. *)
Theorem move_selection_stays_in_range ui :
  UI.consistent ui →
  UI.textual (entries (UI.journal ui)) →
  UI.in_range ui = true →
  let n := Z.of_nat (length (UI.entries_list ui)) in
  let i := UI.selected_index ui in
  let up := UI.move_selection_up ui in
  let down := UI.move_selection_down ui in
  (up.1 = UI.Done () ∧ down.1 = UI.Done ())
  ∧ (UI.selected_index up.2 = Z.max 0 (i - 1)
     ∧ UI.selected_index down.2 = Z.min (n - 1) (i + 1))
  ∧ (UI.in_range up.2 = true ∧ UI.in_range down.2 = true)
  ∧ (UI.journal up.2 = UI.journal ui ∧ UI.journal down.2 = UI.journal ui)
  ∧ (UI.entries_list up.2 = UI.entries_list ui
     ∧ UI.entries_list down.2 = UI.entries_list ui)
  ∧ ((0 < i)%Z → UI.shows_selected up.2)
  ∧ ((i < n - 1)%Z → UI.shows_selected down.2)
  ∧ (i = 0%Z → up.2 = ui)
  ∧ (i = (n - 1)%Z → down.2 = ui).
Proof.
  intros [Hlist _] Htext Hr n i up down.
  pose proof (proj1 (UI_in_range_spec ui) Hr) as Hi. fold n i in Hi.
  assert (UI.entries_list ui ≠ []) as Hne.
  { intros Hnil. unfold n in Hi. rewrite Hnil in Hi. simpl in Hi. lia. }
  assert (up.1 = UI.Done ()
          ∧ UI.selected_index up.2 = Z.max 0 (i - 1)
          ∧ UI.in_range up.2 = true
          ∧ UI.journal up.2 = UI.journal ui
          ∧ UI.entries_list up.2 = UI.entries_list ui
          ∧ ((0 < i)%Z → UI.shows_selected up.2)
          ∧ (i = 0%Z → up.2 = ui)) as Hup.
  { unfold up, UI.move_selection_up. fold i.
    rewrite (bool_decide_eq_true_2 _ Hne), andb_true_l.
    case_bool_decide as Hpos.
    - unfold UI.seq, UI.bind, UI.set_selected_index. fold i.
      match goal with |- context [UI.load_current_entry ?u] =>
        set (u0 := u)
      end.
      assert (UI.in_range u0 = true) as Hr0.
      { apply UI_in_range_spec. unfold u0. simpl. fold n. lia. }
      destruct (UI_load_current_entry_shows u0 Hlist Htext Hr0)
        as (d & e & _ & _ & Hrun & Hshow).
      rewrite Hrun in Hshow. rewrite Hrun. unfold u0 in *. ui_simpl.
      split_and!; [done|lia| |done..|lia].
      apply UI_in_range_spec. simpl. fold n. lia.
    - ui_simpl. split_and!; [done|lia|done..|lia|done]. }
  assert (down.1 = UI.Done ()
          ∧ UI.selected_index down.2 = Z.min (n - 1) (i + 1)
          ∧ UI.in_range down.2 = true
          ∧ UI.journal down.2 = UI.journal ui
          ∧ UI.entries_list down.2 = UI.entries_list ui
          ∧ ((i < n - 1)%Z → UI.shows_selected down.2)
          ∧ (i = (n - 1)%Z → down.2 = ui)) as Hdown.
  { unfold down, UI.move_selection_down. fold i n.
    rewrite (bool_decide_eq_true_2 _ Hne), andb_true_l.
    case_bool_decide as Hlast.
    - unfold UI.seq, UI.bind, UI.set_selected_index. fold i.
      match goal with |- context [UI.load_current_entry ?u] =>
        set (u0 := u)
      end.
      assert (UI.in_range u0 = true) as Hr0.
      { apply UI_in_range_spec. unfold u0. simpl. fold n. lia. }
      destruct (UI_load_current_entry_shows u0 Hlist Htext Hr0)
        as (d & e & _ & _ & Hrun & Hshow).
      rewrite Hrun in Hshow. rewrite Hrun. unfold u0 in *. ui_simpl.
      split_and!; [done|lia| |done..|lia].
      apply UI_in_range_spec. simpl. fold n. lia.
    - ui_simpl. split_and!; [done|lia|done..|lia|done]. }
  destruct Hup as (? & ? & ? & ? & ? & ? & ?).
  destruct Hdown as (? & ? & ? & ? & ? & ? & ?).
  by split_and!.
Qed.

(** ** [delete_current_entry] *)

Lemma UI_delete_current_entry_run del ui d j' :
  UI.in_range ui = true →
  UI.getitem (UI.entries_list ui) (UI.selected_index ui) = UI.Done d →
  delete_entry d del (UI.journal ui) = (Ret (), j') →
  UI.delete_current_entry del ui =
    let l' := sorted_keys (entries j') in
    if bool_decide (l' ≠ []) then
      UI.load_current_entry
        (UI.Ui j' l'
           (Z.min (UI.selected_index ui) (Z.of_nat (length l') - 1))
           (UI.edit_mode ui) (UI.status_message ui) (UI.text ui)
           (UI.read_only ui))
    else
      (UI.Done (),
       UI.Ui j' l' 0 (UI.edit_mode ui) UI.no_entries (JStr "")
         (UI.read_only ui)).
Proof.
  intros Hr Hget Hdel. unfold UI.delete_current_entry. rewrite Hr.
  unfold UI.bind at 1. unfold UI.selected. rewrite Hget.
  unfold UI.seq, UI.bind, UI.call. rewrite Hdel.
  unfold UI.list_entries, UI.set_entries_list. ui_simpl. cbn zeta.
  by case_bool_decide.
Qed.

Lemma delete_entry_allowed date_str del st :
  (is_Some (files st !! json_name date_str) →
   json_name date_str ∉ denied st) →
  ∃ st', delete_entry date_str del st = (Ret (), st')
    ∧ entries st' = delete date_str (entries st)
    ∧ files st' = delete (json_name date_str) (files st).
Proof.
  intros Hok. rewrite delete_entry_run. cbn zeta.
  destruct (decide (is_Some (entries st !! date_str))) as [He|He];
    destruct (decide (is_Some (files st !! json_name date_str))) as [Hf|Hf];
    rewrite ?(bool_decide_eq_true_2 _ He), ?(bool_decide_eq_false_2 _ He),
      ?(bool_decide_eq_true_2 _ Hf), ?(bool_decide_eq_false_2 _ Hf),
      ?decide_False by auto;
    try rewrite <-eq_None_not_Some in He;
    try rewrite <-eq_None_not_Some in Hf;
    eexists; (split_and!; [done|..]); simpl;
    try rewrite (delete_id _ _ He); try rewrite (delete_id _ _ Hf); done.
Qed.

(** X22. [delete_current_entry] on the selected entry, when the list is the
    list of the ids of the journal, the file of the entry, if there is
    one, can be removed, and the content of every entry is a string (or
    absent): the method returns; journal and directory have
    lost the entry; the new list is the old one without the selected
    position; with entries left, the index stays where it was, so that it
    now selects the entry that came next in the list, except that after
    the last position it moves up by one, and that entry is shown
    read-only with the edit mode left.  With no entry left the index is 0,
    the text is empty and the status names the key [n], and neither the
    edit mode nor [read_only] is reset. *)
Theorem delete_current_entry_selects_next del ui date_str :
  UI.fresh ui →
  UI.textual (entries (UI.journal ui)) →
  (0 ≤ UI.selected_index ui)%Z →
  UI.entries_list ui !! Z.to_nat (UI.selected_index ui) = Some date_str →
  (is_Some (files (UI.journal ui) !! json_name date_str) →
   json_name date_str ∉ denied (UI.journal ui)) →
  let n := length (UI.entries_list ui) in
  let k := Z.to_nat (UI.selected_index ui) in
  let after := UI.delete_current_entry del ui in
  after.1 = UI.Done ()
  ∧ entries (UI.journal after.2)
    = delete date_str (entries (UI.journal ui))
  ∧ files (UI.journal after.2)
    = delete (json_name date_str) (files (UI.journal ui))
  ∧ UI.entries_list after.2 = delete k (UI.entries_list ui)
  ∧ UI.fresh after.2
  ∧ (1 < n →
     UI.selected_index after.2
       = Z.of_nat (if bool_decide (S k < n) then k else k - 1)
     ∧ UI.entries_list after.2 !! Z.to_nat (UI.selected_index after.2)
       = UI.entries_list ui !! (if bool_decide (S k < n) then S k else k - 1)
     ∧ UI.shows_selected after.2)
  ∧ (n = 1 →
     UI.entries_list after.2 = []
     ∧ UI.selected_index after.2 = 0%Z
     ∧ UI.text after.2 = JStr ""
     ∧ UI.status_message after.2 = UI.no_entries
     ∧ UI.edit_mode after.2 = UI.edit_mode ui
     ∧ UI.read_only after.2 = UI.read_only ui).
Proof.
  intros Hfresh Htext Hi Hd Hok n k after.
  destruct (UI_selected_lookup ui date_str Hi Hd) as [Hr Hget].
  destruct (delete_entry_allowed date_str del (UI.journal ui) Hok)
    as (j' & Hdel & He & Hf).
  assert (sorted_keys (entries j') = delete k (UI.entries_list ui)) as Hl.
  { rewrite He, Hfresh. apply sorted_keys_delete. by rewrite <-Hfresh. }
  assert (length (sorted_keys (entries j')) = n - 1) as Hlen.
  { rewrite Hl, length_delete by eauto. done. }
  assert (k < n) as Hk by by apply lookup_lt_Some in Hd.
  unfold after.
  rewrite (UI_delete_current_entry_run del ui date_str j' Hr Hget Hdel).
  cbn zeta. case_bool_decide as Hne.
  - assert (1 < n) as Hn.
    { destruct (sorted_keys (entries j')); [done|]. simpl in Hlen. lia. }
    match goal with |- context [UI.load_current_entry ?u] =>
      set (u0 := u)
    end.
    assert (UI.selected_index u0
            = Z.of_nat (if bool_decide (S k < n) then k else k - 1)) as Hidx.
    { unfold u0. ui_simpl. rewrite Hlen. case_bool_decide; lia. }
    assert (UI.in_range u0 = true) as Hr0.
    { apply UI_in_range_spec. rewrite Hidx. unfold u0. ui_simpl.
      rewrite Hlen. case_bool_decide; lia. }
    destruct (UI_load_current_entry_shows u0) as (d & e & _ & _ & Hrun & Hs).
    { intros id. unfold u0. ui_simpl. by rewrite elem_of_sorted_keys. }
    { intros id e. unfold u0. ui_simpl. rewrite He.
      intros [_ Hid]%lookup_delete_Some. by apply (Htext id). }
    { done. }
    rewrite Hrun in Hs. rewrite Hrun. ui_simpl.
    split_and!; [done..| | |lia].
    + done.
    + intros _. split_and!; [done| |done].
      rewrite Hidx. unfold u0. ui_simpl. rewrite Hl, Nat2Z.id.
      case_bool_decide.
      * by rewrite list_lookup_delete_ge by lia.
      * by rewrite list_lookup_delete_lt by lia.
  - ui_simpl.
    assert (n = 1) as Hn by (rewrite Hne in Hlen; simpl in Hlen; lia).
    split_and!; [done..| |lia|].
    + done.
    + intros _. by split_and!.
Qed.

(** ** [create_new_entry] *)

(** X23. [create_new_entry] of the interface, with more fuel than there are
    entries: the id is the first of [today], [today_1], ... that the
    journal does not hold, and the journal ends with the empty entry under
    it.  When its file can be written the method returns, the list is the
    list of the ids of the journal, the index selects the new id, and the
    interface is in edit mode on an empty, writable text.  When the file
    cannot be written the [OSError] leaves the method before the list is
    made again: list, index, text and edit mode are as before, the new id
    is in the journal and, the list naming entries of the journal only
    before the call, not in the list. *)
Theorem create_new_entry_selects_new_id
    fuel today created_at updated_at post ui :
  size (entries (UI.journal ui)) < fuel →
  ∃ n,
    let date_str := candidate today n in
    let after :=
      UI.create_new_entry fuel today created_at updated_at post ui in
    entries (UI.journal ui) !! date_str = None
    ∧ (∀ k, k < n → is_Some (entries (UI.journal ui) !! candidate today k))
    ∧ entries (UI.journal after.2)
      = <[date_str := empty_entry created_at updated_at]>
          (entries (UI.journal ui))
    ∧ (json_name date_str ∉ denied (UI.journal ui) →
       after.1 = UI.Done ()
       ∧ UI.fresh after.2
       ∧ (0 ≤ UI.selected_index after.2)%Z
       ∧ UI.entries_list after.2 !! Z.to_nat (UI.selected_index after.2)
         = Some date_str
       ∧ UI.edit_mode after.2 = true
       ∧ UI.read_only after.2 = false
       ∧ UI.text after.2 = JStr "")
    ∧ (json_name date_str ∈ denied (UI.journal ui) →
       after.1 = UI.Raised (UI.Exn OSError)
       ∧ UI.entries_list after.2 = UI.entries_list ui
       ∧ UI.selected_index after.2 = UI.selected_index ui
       ∧ UI.text after.2 = UI.text ui
       ∧ UI.edit_mode after.2 = UI.edit_mode ui
       ∧ (UI.consistent ui → date_str ∉ UI.entries_list after.2)).
Proof.
  intros Hsize.
  destruct (free_id_total today fuel (entries (UI.journal ui)) 0 Hsize)
    as [id Hid].
  change (free_id fuel (entries (UI.journal ui)) today 1 today = Some id)
    in Hid.
  pose proof (free_id_first today _ _ _ _ Hid)
    as (n & _ & -> & Hfree & Hbusy).
  exists n. cbn zeta.
  unfold UI.create_new_entry, UI.bind, UI.call.
  rewrite (create_new_entry_run _ _ _ _ _ _ _ Hid), save_entry_run.
  cbn zeta.
  destruct (decide (json_name (candidate today n) ∈ denied (UI.journal ui)))
    as [Hden|Hden]; ui_simpl.
  - split_and!; [done|intros k ?; apply Hbusy; lia|done|done|].
    intros _. split_and!; [done..|]. intros [Hlist _] Hin.
    apply Hlist in Hin as [e He]. congruence.
  - set (j := set_sync_lock false _).
    assert (entries j = <[candidate today n
              := empty_entry created_at updated_at]>
              (entries (UI.journal ui))) as Hj by done.
    assert (entries j !! candidate today n
            = Some (empty_entry created_at updated_at)) as Hd.
    { by rewrite Hj, lookup_insert_eq. }
    unfold UI.seq, UI.bind, UI.list_entries, UI.set_entries_list. ui_simpl.
    fold j.
    destruct (UI_index_Done (sorted_keys (entries j)) (candidate today n))
      as (i & -> & Hi).
    { apply elem_of_sorted_keys. eauto. }
    unfold UI.set_selected_index. ui_simpl.
    match goal with |- context [UI.edit_current_entry ?u] =>
      rewrite (UI_edit_current_entry_at u (candidate today n)
                 (empty_entry created_at updated_at))
    end; ui_simpl;
      [|lia|by rewrite Nat2Z.id|done|by rewrite content_of_empty_entry].
    rewrite content_of_empty_entry, Nat2Z.id.
    split_and!; [done|intros k ?; apply Hbusy; lia|done| |done].
    intros _. split_and!; [done|done|lia|done..].
Qed.

(** ** The background loops and the selection *)

Lemma UI_save_current_entry_entries now post ui d :
  UI.in_range ui = true →
  UI.getitem (UI.entries_list ui) (UI.selected_index ui) = UI.Done d →
  entries (UI.journal (UI.save_current_entry now post ui).2)
  = <[d := <["updated_at" := JStr now]>
             (<["content" := UI.text ui]>
                (default ∅ (entries (UI.journal ui) !! d)))]>
      (entries (UI.journal ui)).
Proof.
  intros Hr Hget.
  rewrite (UI_save_current_entry_run now post ui d Hr Hget).
  rewrite UI_fill_entry_data_run.
  destruct (entries (UI.journal ui) !! d) as [e|]; cbn zeta;
    cbn [fst snd UI.journal default]; rewrite save_entry_run; cbn zeta;
    case_decide; simpl; by rewrite ?insert_insert_eq.
Qed.

Lemma UI_sync_run `{DateTime} resp ui :
  UI.step (UI.Sync resp) ui =
    (UI.Done (),
     UI.Ui (sync_cycle resp (UI.journal ui)).2 (UI.entries_list ui)
       (UI.selected_index ui) (UI.edit_mode ui) (UI.status_message ui)
       (UI.text ui) (UI.read_only ui)).
Proof.
  cbn [UI.step]. unfold UI.call.
  pose proof (sync_cycle_returns resp (UI.journal ui)) as Hret.
  by destruct (sync_cycle resp (UI.journal ui)) as [[[]|] j]; simplify_eq/=.
Qed.

(** X24. An entry is being edited, the list being the list of the ids of the
    journal.  A cycle of [background_sync] brings one new id [N], greater
    than every id of the journal (a later day), and a turn of
    [refresh_entries_list] follows.  The turn puts [N] at the head of the
    list and touches neither the index, the text nor the edit mode: the
    index now selects another id than the one being edited, and [Enter]
    stores the text under that other id, on top of the entry held there,
    while the entry that was being edited stays as the cycle left it. *)
Theorem refresh_moves_the_edit_target `{DateTime} resp now post ui d N :
  UI.fresh ui →
  UI.edit_mode ui = true →
  (0 ≤ UI.selected_index ui)%Z →
  UI.entries_list ui !! Z.to_nat (UI.selected_index ui) = Some d →
  entries (UI.journal ui) !! N = None →
  (∀ id, is_Some (entries (UI.journal ui) !! id) → String.le id N) →
  let synced := (UI.step (UI.Sync resp) ui).2 in
  dom (entries (UI.journal synced)) = {[N]} ∪ dom (entries (UI.journal ui)) →
  let refreshed := (UI.step UI.Refresh synced).2 in
  let saved := (UI.step (UI.Key_enter now post) refreshed).2 in
  UI.entries_list refreshed = N :: UI.entries_list ui
  ∧ UI.selected_index refreshed = UI.selected_index ui
  ∧ UI.text refreshed = UI.text ui
  ∧ UI.edit_mode refreshed = true
  ∧ ∃ target e,
      UI.entries_list refreshed !! Z.to_nat (UI.selected_index ui)
        = Some target
      ∧ target ≠ d
      ∧ entries (UI.journal synced) !! target = Some e
      ∧ entries (UI.journal saved) !! target
        = Some (<["updated_at" := JStr now]>
                  (<["content" := UI.text ui]> e))
      ∧ entries (UI.journal saved) !! d
        = entries (UI.journal synced) !! d.
Proof.
  intros Hfresh Hedit Hi Hd HN Htop synced Hdom refreshed saved.
  subst saved refreshed synced. rewrite UI_sync_run in Hdom |- *.
  cbn [snd UI.journal] in Hdom |- *.
  set (j1 := (sync_cycle resp (UI.journal ui)).2) in *.
  assert (sorted_keys (entries j1) = N :: UI.entries_list ui) as Hl.
  { rewrite Hfresh. by apply sorted_keys_top. }
  assert (N ∉ UI.entries_list ui) as HNl.
  { rewrite Hfresh, elem_of_sorted_keys, HN. by intros []. }
  set (u1 := UI.Ui j1 _ _ _ _ _ _).
  assert ((UI.step UI.Refresh u1).2 =
    UI.Ui j1 (N :: UI.entries_list ui) (UI.selected_index ui) true
      (UI.status_message ui) (UI.text ui) (UI.read_only ui)) as ->.
  { cbn [UI.step]. unfold UI.refresh_entries_list, u1.
    ui_simpl. rewrite bool_decide_eq_false_2.
    - unfold UI.list_entries, UI.set_entries_list. ui_simpl.
      by rewrite Hl, Hedit.
    - rewrite Hdom. intros Heq. apply HNl.
      apply (elem_of_list_to_set (C := gset string)). rewrite Heq.
      apply elem_of_union_l. by apply elem_of_singleton. }
  cbn [UI.step]. ui_simpl. split_and!; [done..|].
  set (u := UI.Ui _ _ _ _ _ _ _).
  assert (is_Some ((N :: UI.entries_list ui)
                     !! Z.to_nat (UI.selected_index ui))) as [target Ht].
  { apply lookup_lt_is_Some. apply lookup_lt_Some in Hd. simpl. lia. }
  destruct (UI_selected_lookup u target Hi Ht) as [Hr Hget].
  assert (is_Some (entries j1 !! target)) as [e He].
  { apply elem_of_sorted_keys. rewrite Hl.
    by eapply list_elem_of_lookup_2. }
  assert (target ≠ d) as Hne.
  { intros ->.
    destruct (Z.to_nat (UI.selected_index ui)) as [|k] eqn:Hk.
    - simpl in Ht. injection Ht as ->. apply HNl.
      by eapply list_elem_of_lookup_2.
    - simpl in Ht.
      assert (NoDup (UI.entries_list ui)) as Hnd
        by (rewrite Hfresh; apply NoDup_sorted_keys).
      pose proof (NoDup_lookup _ _ _ _ Hnd Ht Hd). lia. }
  exists target, e. split_and!; [done..| |].
  - rewrite (UI_save_current_entry_entries now post u target Hr Hget).
    unfold u. ui_simpl. by rewrite lookup_insert_eq, He.
  - rewrite (UI_save_current_entry_entries now post u target Hr Hget).
    unfold u. ui_simpl. by rewrite lookup_insert_ne.
Qed.

(** X25. [manual_refresh], when the content of every entry that
    [load_entries] leaves in the journal is a string (or absent): the
    method returns; the journal is the one [load_entries] leaves, the list
    is the list of its ids, the index is as before.  If the index is in
    range of the new list the entry it selects is shown read-only and the
    edit mode is left, whatever was being typed, and the status is the one
    of that entry, not [Sync completed]; otherwise the status is
    [Sync completed] and the text area and the edit mode are left as they
    were. *)
Theorem manual_refresh_reloads resp ui :
  UI.textual (entries (load_entries resp (UI.journal ui)).2) →
  let after := UI.manual_refresh resp ui in
  after.1 = UI.Done ()
  ∧ UI.journal after.2 = (load_entries resp (UI.journal ui)).2
  ∧ UI.fresh after.2
  ∧ UI.selected_index after.2 = UI.selected_index ui
  ∧ (if UI.in_range after.2
     then UI.shows_selected after.2
          ∧ ∃ d, UI.entries_list after.2
                   !! Z.to_nat (UI.selected_index ui) = Some d
               ∧ UI.status_message after.2
                 = "Viewing entry from " +:+ d +:+ UI.keys_help
     else UI.status_message after.2 = "Sync completed"
          ∧ UI.text after.2 = UI.text ui
          ∧ UI.edit_mode after.2 = UI.edit_mode ui
          ∧ UI.read_only after.2 = UI.read_only ui).
Proof.
  intros Htext. cbn zeta.
  unfold UI.manual_refresh, UI.seq, UI.bind, UI.set_status_message, UI.call.
  ui_simpl.
  destruct (load_entries_returns resp (UI.journal ui)) as (j & Hload).
  rewrite Hload in Htext |- *. cbn [snd] in Htext.
  unfold UI.list_entries, UI.set_entries_list. ui_simpl.
  match goal with |- context [UI.load_current_entry ?u] => set (u0 := u) end.
  destruct (UI.in_range u0) eqn:Hr.
  - destruct (UI_load_current_entry_shows u0) as (d & e & Hd & _ & Hrun & Hs).
    { intros id. unfold u0. ui_simpl. by rewrite elem_of_sorted_keys. }
    { done. }
    { done. }
    rewrite Hrun in Hs. rewrite Hrun. ui_simpl.
    assert (UI.in_range
              (UI.Ui (UI.journal u0) (UI.entries_list u0)
                 (UI.selected_index u0) false
                 ("Viewing entry from " +:+ d +:+ UI.keys_help)
                 (UI.content_of e) true) = true) as -> by done.
    split_and!; [done..|]. by exists d.
  - ui_simpl. rewrite Hr. by split_and!.
Qed.

(** X26. [__init__], when the content of every entry that [load_entries]
    puts in the journal is a string (or absent), returns with the list of
    the ids of the journal, sorted downwards, and the index 0.  With
    entries, the entry shown is the one of the greatest id (the latest
    day), read-only; with none, the text is empty and the status names the
    key [n]. *)
Theorem init_shows_the_latest disk no_write resp :
  UI.textual
    (entries (load_entries resp (Journal ∅ disk no_write false [] [])).2) →
  let started := UI.init disk no_write resp in
  let j := UI.journal started.2 in
  started.1 = UI.Done ()
  ∧ j = (load_entries resp (Journal ∅ disk no_write false [] [])).2
  ∧ UI.fresh started.2
  ∧ UI.selected_index started.2 = 0%Z
  ∧ UI.edit_mode started.2 = false
  ∧ UI.read_only started.2 = true
  ∧ (entries j = ∅ →
     UI.text started.2 = JStr ""
     ∧ UI.status_message started.2 = UI.no_entries)
  ∧ (entries j ≠ ∅ →
     ∃ d e,
       entries j !! d = Some e
       ∧ (∀ id, is_Some (entries j !! id) → String.le id d)
       ∧ UI.text started.2 = UI.content_of e
       ∧ UI.status_message started.2
         = "Viewing entry from " +:+ d +:+ UI.keys_help).
Proof.
  intros Htext. cbn zeta. unfold UI.init. cbn zeta. cbn [UI.entries_list].
  revert Htext. set (j := (load_entries resp _).2). intros Htext.
  case_bool_decide as Hne.
  - match goal with |- context [UI.load_current_entry ?u] => set (u0 := u) end.
    destruct (sorted_keys (entries j)) as [|d l] eqn:Hl; [done|].
    assert (is_Some (entries j !! d)) as [e He].
    { apply elem_of_sorted_keys. rewrite Hl. by left. }
    rewrite (UI_load_current_entry_at u0 d e);
      [|done|done|done|by apply (Htext d)].
    unfold u0. ui_simpl. unfold UI.fresh. ui_simpl.
    split_and!; [done..| |].
    + intros Hnil. by rewrite Hnil in He.
    + intros _. exists d, e. split_and!; [done| |done..].
      by apply (sorted_keys_head (entries j) d l).
  - unfold UI.set_status_message. ui_simpl. unfold UI.fresh. ui_simpl.
    split_and!; [done..|].
    intros Hnil. by apply sorted_keys_nil in Hne.
Qed.

(** X27. Key [e] on a selected entry whose content is a string (or absent),
    typing, then [Escape]: key [e] enters the edit mode on a writable
    text; [Escape] puts the interface back on the entry as the journal
    holds it, read-only, the typed text being lost; the journal was not
    changed on the way, and the end state is the one of
    [load_current_entry] on the state before the key [e].  [Escape]
    outside the edit mode does nothing. *)
Theorem edit_then_escape_restores `{DateTime} ui typed :
  UI.consistent ui →
  UI.textual (entries (UI.journal ui)) →
  UI.in_range ui = true →
  let edited := (UI.step UI.Key_e ui).2 in
  let typing :=
    UI.Ui (UI.journal edited) (UI.entries_list edited)
      (UI.selected_index edited) (UI.edit_mode edited)
      (UI.status_message edited) typed (UI.read_only edited) in
  (UI.step UI.Key_e ui).1 = UI.Done ()
  ∧ UI.edit_mode edited = true
  ∧ UI.read_only edited = false
  ∧ UI.step UI.Key_escape typing = UI.load_current_entry ui
  ∧ (UI.step UI.Key_escape typing).1 = UI.Done ()
  ∧ UI.shows_selected (UI.step UI.Key_escape typing).2
  ∧ UI.journal (UI.step UI.Key_escape typing).2 = UI.journal ui
  ∧ (UI.edit_mode ui = false →
     UI.step UI.Key_escape ui = (UI.Done (), ui)).
Proof.
  intros [Hlist _] Htext Hr.
  destruct (UI_load_current_entry_shows ui Hlist Htext Hr)
    as (d & e & Hd & He & Hrun & Hs).
  pose proof (Htext d e He) as Ht.
  apply UI_in_range_spec in Hr as Hi.
  cbn zeta. cbn [UI.step].
  rewrite (UI_edit_current_entry_at ui d e) by (lia || done). ui_simpl.
  unfold UI.cancel_edit, UI.seq, UI.bind, UI.set_edit_mode. ui_simpl.
  match goal with |- context [UI.load_current_entry ?u] =>
    rewrite (UI_load_current_entry_at u d e) by (simpl; lia || done)
  end.
  rewrite Hrun in Hs. rewrite Hrun. ui_simpl.
  split_and!; [done..|]. by intros ->.
Qed.

(** X28. An entry whose content is not a string (a number, a boolean or
    [null] sent by the server or read from its file) cannot be shown:
    with such an entry selected, [load_current_entry] and key [e] raise
    the [TypeError] of the text area and change nothing, so the edit mode
    is not entered; so does [Enter] outside the edit mode; [Escape] in the
    edit mode raises it after having left the edit mode, the text and
    [read_only] being as before. *)
Theorem non_text_content_is_refused `{DateTime} ui d e :
  (0 ≤ UI.selected_index ui)%Z →
  UI.entries_list ui !! Z.to_nat (UI.selected_index ui) = Some d →
  entries (UI.journal ui) !! d = Some e →
  UI.is_text (UI.content_of e) = false →
  UI.load_current_entry ui = (UI.Raised UI.TypeError, ui)
  ∧ UI.step UI.Key_e ui = (UI.Raised UI.TypeError, ui)
  ∧ (UI.edit_mode ui = false →
     ∀ now post,
       UI.step (UI.Key_enter now post) ui = (UI.Raised UI.TypeError, ui))
  ∧ (UI.edit_mode ui = true →
     UI.step UI.Key_escape ui
     = (UI.Raised UI.TypeError,
        UI.Ui (UI.journal ui) (UI.entries_list ui) (UI.selected_index ui)
          false (UI.status_message ui) (UI.text ui) (UI.read_only ui))).
Proof.
  intros Hi Hd He Ht.
  destruct (UI_load_current_entry_refused ui d e Hi Hd He Ht) as [Hl Hed].
  split_and!; [done|done| |].
  - intros Hm now post. cbn [UI.step]. by rewrite Hm.
  - intros Hm. cbn [UI.step]. rewrite Hm.
    unfold UI.cancel_edit, UI.seq, UI.bind, UI.set_edit_mode.
    match goal with |- context [UI.load_current_entry ?u] =>
      by destruct (UI_load_current_entry_refused u d e Hi Hd He Ht) as [-> _]
    end.
Qed.

(** ** Instances of the properties of the interface *)

Lemma delete_current_entry_failure_witness :
  let j :=
    stored {["2024-01-01" := undated "a"]} {[json_name "2024-01-01"]} in
  let ui := viewing j ["2024-01-01"] 0 in
  let failed := UI.delete_current_entry Unreachable ui in
  failed.1 = UI.Raised (UI.Exn OSError)
  ∧ entries (UI.journal failed.2)
    = delete "2024-01-01" (entries (UI.journal ui))
  ∧ UI.entries_list failed.2 = UI.entries_list ui
  ∧ UI.selected_index failed.2 = UI.selected_index ui
  ∧ UI.load_current_entry failed.2
    = (UI.Raised (UI.KeyError "2024-01-01"), failed.2)
  ∧ UI.edit_current_entry failed.2
    = (UI.Raised (UI.KeyError "2024-01-01"), failed.2)
  ∧ ∀ now post,
      entries (UI.journal (UI.save_current_entry now post failed.2).2)
        !! "2024-01-01"
      = Some (<["updated_at" := JStr now]> (<["content" := UI.text ui]> ∅)).
Proof.
  apply (delete_current_entry_failure Unreachable
           (viewing
              (stored {["2024-01-01" := undated "a"]}
                 {[json_name "2024-01-01"]})
              ["2024-01-01"] 0)
           "2024-01-01").
  - reflexivity.
  - reflexivity.
  - exists (Json (undated "a")). reflexivity.
  - change (json_name "2024-01-01" ∈@{gset string}
              {[json_name "2024-01-01"]}).
    apply elem_of_singleton_2. reflexivity.
Defined.

Lemma save_current_entry_effect_witness :
  let ui :=
    editing (stored {["2024-01-01" := stamped "a" "2024-01-01T10:00:00"]} ∅)
      ["2024-01-01"] 0 "b" in
  let j := UI.journal ui in
  let old := default ∅ (entries j !! "2024-01-01") in
  let entry_data :=
    <["updated_at" := JStr "2024-01-01T11:00:00"]>
      (<["content" := UI.text ui]> old) in
  let after :=
    UI.save_current_entry "2024-01-01T11:00:00" (Response 200 ()) ui in
  entries (UI.journal after.2) = <["2024-01-01" := entry_data]> (entries j)
  ∧ (∀ field, field ≠ "content" → field ≠ "updated_at" →
       entry_data !! field = old !! field)
  ∧ after.1 = UI.Done ()
  ∧ (json_name "2024-01-01" ∉ denied j →
       files (UI.journal after.2) !! json_name "2024-01-01"
         = Some (Json entry_data)
       ∧ UI.edit_mode after.2 = false ∧ UI.read_only after.2 = true)
  ∧ mutations (UI.journal after.2)
    = mutations j
      ++ (if entries j !! "2024-01-01" is Some _
          then [sync_lock j; sync_lock j] else [])
      ++ [true]
  ∧ ∀ post',
      UI.save_current_entry "2024-01-01T11:00:00" post' ui = after.
Proof.
  exact (save_current_entry_effect "2024-01-01T11:00:00" (Response 200 ())
           (editing
              (stored {["2024-01-01" := stamped "a" "2024-01-01T10:00:00"]}
                 ∅)
              ["2024-01-01"] 0 "b")
           "2024-01-01" eq_refl eq_refl).
Defined.

Lemma move_selection_stays_in_range_witness :
  let ui :=
    viewing (holding {["2024-01-01" := undated "a";
                       "2024-01-02" := undated "b"]})
      ["2024-01-02"; "2024-01-01"] 0 in
  let n := Z.of_nat (length (UI.entries_list ui)) in
  let i := UI.selected_index ui in
  let up := UI.move_selection_up ui in
  let down := UI.move_selection_down ui in
  (up.1 = UI.Done () ∧ down.1 = UI.Done ())
  ∧ (UI.selected_index up.2 = Z.max 0 (i - 1)
     ∧ UI.selected_index down.2 = Z.min (n - 1) (i + 1))
  ∧ (UI.in_range up.2 = true ∧ UI.in_range down.2 = true)
  ∧ (UI.journal up.2 = UI.journal ui ∧ UI.journal down.2 = UI.journal ui)
  ∧ (UI.entries_list up.2 = UI.entries_list ui
     ∧ UI.entries_list down.2 = UI.entries_list ui)
  ∧ ((0 < i)%Z → UI.shows_selected up.2)
  ∧ ((i < n - 1)%Z → UI.shows_selected down.2)
  ∧ (i = 0%Z → up.2 = ui)
  ∧ (i = (n - 1)%Z → down.2 = ui).
Proof.
  apply (move_selection_stays_in_range
           (viewing (holding {["2024-01-01" := undated "a";
                               "2024-01-02" := undated "b"]})
              ["2024-01-02"; "2024-01-01"] 0)).
  - split; [|done]. intros id Hid. simpl in Hid.
    apply elem_of_cons in Hid as [->|Hid]; [by eexists|].
    apply list_elem_of_singleton in Hid as ->. by eexists.
  - apply UI_textual_insert; [reflexivity|].
    apply UI_textual_singleton. reflexivity.
  - reflexivity.
Defined.

Lemma delete_current_entry_selects_next_witness :
  let ui :=
    viewing (stored {["2024-01-01" := undated "a";
                      "2024-01-02" := undated "b"]} ∅)
      ["2024-01-02"; "2024-01-01"] 1 in
  let n := length (UI.entries_list ui) in
  let k := Z.to_nat (UI.selected_index ui) in
  let after := UI.delete_current_entry Unreachable ui in
  after.1 = UI.Done ()
  ∧ entries (UI.journal after.2)
    = delete "2024-01-01" (entries (UI.journal ui))
  ∧ files (UI.journal after.2)
    = delete (json_name "2024-01-01") (files (UI.journal ui))
  ∧ UI.entries_list after.2 = delete k (UI.entries_list ui)
  ∧ UI.fresh after.2
  ∧ (1 < n →
     UI.selected_index after.2
       = Z.of_nat (if bool_decide (S k < n) then k else k - 1)
     ∧ UI.entries_list after.2 !! Z.to_nat (UI.selected_index after.2)
       = UI.entries_list ui !! (if bool_decide (S k < n) then S k else k - 1)
     ∧ UI.shows_selected after.2)
  ∧ (n = 1 →
     UI.entries_list after.2 = []
     ∧ UI.selected_index after.2 = 0%Z
     ∧ UI.text after.2 = JStr ""
     ∧ UI.status_message after.2 = UI.no_entries
     ∧ UI.edit_mode after.2 = UI.edit_mode ui
     ∧ UI.read_only after.2 = UI.read_only ui).
Proof.
  apply (delete_current_entry_selects_next Unreachable
           (viewing (stored {["2024-01-01" := undated "a";
                              "2024-01-02" := undated "b"]} ∅)
              ["2024-01-02"; "2024-01-01"] 1)
           "2024-01-01").
  - reflexivity.
  - apply UI_textual_insert; [reflexivity|].
    apply UI_textual_singleton. reflexivity.
  - done.
  - reflexivity.
  - intros _. apply not_elem_of_empty.
Defined.

Lemma create_new_entry_selects_new_id_witness :
  ∃ n,
    let ui :=
      viewing (holding {["2024-01-01" := undated "a"]}) ["2024-01-01"] 0 in
    let date_str := candidate "2024-01-01" n in
    let after := UI.create_new_entry 2 "2024-01-01" "t0" "t1" Unreachable ui in
    entries (UI.journal ui) !! date_str = None
    ∧ (∀ k, k < n →
         is_Some (entries (UI.journal ui) !! candidate "2024-01-01" k))
    ∧ entries (UI.journal after.2)
      = <[date_str := empty_entry "t0" "t1"]> (entries (UI.journal ui))
    ∧ (json_name date_str ∉ denied (UI.journal ui) →
       after.1 = UI.Done ()
       ∧ UI.fresh after.2
       ∧ (0 ≤ UI.selected_index after.2)%Z
       ∧ UI.entries_list after.2 !! Z.to_nat (UI.selected_index after.2)
         = Some date_str
       ∧ UI.edit_mode after.2 = true
       ∧ UI.read_only after.2 = false
       ∧ UI.text after.2 = JStr "")
    ∧ (json_name date_str ∈ denied (UI.journal ui) →
       after.1 = UI.Raised (UI.Exn OSError)
       ∧ UI.entries_list after.2 = UI.entries_list ui
       ∧ UI.selected_index after.2 = UI.selected_index ui
       ∧ UI.text after.2 = UI.text ui
       ∧ UI.edit_mode after.2 = UI.edit_mode ui
       ∧ (UI.consistent ui → date_str ∉ UI.entries_list after.2)).
Proof.
  apply (create_new_entry_selects_new_id 2 "2024-01-01" "t0" "t1" Unreachable
           (viewing (holding {["2024-01-01" := undated "a"]})
              ["2024-01-01"] 0)).
  vm_compute. lia.
Defined.

Lemma refresh_moves_the_edit_target_witness :
  let ui :=
    editing (holding {["2024-01-01" := undated "a"]}) ["2024-01-01"] 0
      "typed" in
  let resp := Response 200 [("2024-01-02", undated "b")] in
  let synced := (UI.step (H := naive_iso) (UI.Sync resp) ui).2 in
  let refreshed := (UI.step (H := naive_iso) UI.Refresh synced).2 in
  let saved :=
    (UI.step (H := naive_iso)
       (UI.Key_enter "2024-01-01T11:00:00" Unreachable) refreshed).2 in
  UI.entries_list refreshed = "2024-01-02" :: UI.entries_list ui
  ∧ UI.selected_index refreshed = UI.selected_index ui
  ∧ UI.text refreshed = UI.text ui
  ∧ UI.edit_mode refreshed = true
  ∧ ∃ target e,
      UI.entries_list refreshed !! Z.to_nat (UI.selected_index ui)
        = Some target
      ∧ target ≠ "2024-01-01"
      ∧ entries (UI.journal synced) !! target = Some e
      ∧ entries (UI.journal saved) !! target
        = Some (<["updated_at" := JStr "2024-01-01T11:00:00"]>
                  (<["content" := UI.text ui]> e))
      ∧ entries (UI.journal saved) !! "2024-01-01"
        = entries (UI.journal synced) !! "2024-01-01".
Proof.
  apply (refresh_moves_the_edit_target (H := naive_iso)
           (Response 200 [("2024-01-02", undated "b")])
           "2024-01-01T11:00:00" Unreachable
           (editing (holding {["2024-01-01" := undated "a"]})
              ["2024-01-01"] 0 "typed")
           "2024-01-01" "2024-01-02").
  - reflexivity.
  - reflexivity.
  - done.
  - reflexivity.
  - reflexivity.
  - intros id [e He]. unfold editing, holding in He.
    cbn [UI.journal entries] in He.
    apply lookup_singleton_Some in He as [<- _].
    vm_compute. exact I.
  - reflexivity.
Defined.

Lemma edit_then_escape_restores_witness :
  let ui :=
    viewing (holding {["2024-01-01" := undated "a"]}) ["2024-01-01"] 0 in
  let edited := (UI.step (H := naive_iso) UI.Key_e ui).2 in
  let typing :=
    UI.Ui (UI.journal edited) (UI.entries_list edited)
      (UI.selected_index edited) (UI.edit_mode edited)
      (UI.status_message edited) (JStr "typed") (UI.read_only edited) in
  (UI.step (H := naive_iso) UI.Key_e ui).1 = UI.Done ()
  ∧ UI.edit_mode edited = true
  ∧ UI.read_only edited = false
  ∧ UI.step (H := naive_iso) UI.Key_escape typing = UI.load_current_entry ui
  ∧ (UI.step (H := naive_iso) UI.Key_escape typing).1 = UI.Done ()
  ∧ UI.shows_selected (UI.step (H := naive_iso) UI.Key_escape typing).2
  ∧ UI.journal (UI.step (H := naive_iso) UI.Key_escape typing).2
    = UI.journal ui
  ∧ (UI.edit_mode ui = false →
     UI.step (H := naive_iso) UI.Key_escape ui = (UI.Done (), ui)).
Proof.
  apply (edit_then_escape_restores (H := naive_iso)
           (viewing (holding {["2024-01-01" := undated "a"]})
              ["2024-01-01"] 0)
           (JStr "typed")).
  - split; [|done]. intros id Hid.
    apply list_elem_of_singleton in Hid as ->. by eexists.
  - apply UI_textual_singleton. reflexivity.
  - reflexivity.
Defined.

Lemma manual_refresh_reloads_witness :
  let ui :=
    editing (holding {["2024-01-01" := undated "a"]}) ["2024-01-01"] 0
      "typed" in
  let resp := Response 200 [("2024-01-02", undated "b")] in
  let after := UI.manual_refresh resp ui in
  after.1 = UI.Done ()
  ∧ UI.journal after.2 = (load_entries resp (UI.journal ui)).2
  ∧ UI.fresh after.2
  ∧ UI.selected_index after.2 = UI.selected_index ui
  ∧ (if UI.in_range after.2
     then UI.shows_selected after.2
          ∧ ∃ d, UI.entries_list after.2
                   !! Z.to_nat (UI.selected_index ui) = Some d
               ∧ UI.status_message after.2
                 = "Viewing entry from " +:+ d +:+ UI.keys_help
     else UI.status_message after.2 = "Sync completed"
          ∧ UI.text after.2 = UI.text ui
          ∧ UI.edit_mode after.2 = UI.edit_mode ui
          ∧ UI.read_only after.2 = UI.read_only ui).
Proof.
  apply (manual_refresh_reloads
           (Response 200 [("2024-01-02", undated "b")])
           (editing (holding {["2024-01-01" := undated "a"]})
              ["2024-01-01"] 0 "typed")).
  change (UI.textual {["2024-01-02" := undated "b"]}).
  apply UI_textual_singleton. reflexivity.
Defined.

Lemma init_shows_the_latest_witness :
  let disk : gmap string blob :=
    {[json_name "2024-01-01" := Json (undated "a");
      json_name "2024-01-02" := Json (undated "b")]} in
  let started := UI.init disk ∅ Unreachable in
  let j := UI.journal started.2 in
  started.1 = UI.Done ()
  ∧ j = (load_entries Unreachable (Journal ∅ disk ∅ false [] [])).2
  ∧ UI.fresh started.2
  ∧ UI.selected_index started.2 = 0%Z
  ∧ UI.edit_mode started.2 = false
  ∧ UI.read_only started.2 = true
  ∧ (entries j = ∅ →
     UI.text started.2 = JStr ""
     ∧ UI.status_message started.2 = UI.no_entries)
  ∧ (entries j ≠ ∅ →
     ∃ d e,
       entries j !! d = Some e
       ∧ (∀ id, is_Some (entries j !! id) → String.le id d)
       ∧ UI.text started.2 = UI.content_of e
       ∧ UI.status_message started.2
         = "Viewing entry from " +:+ d +:+ UI.keys_help).
Proof.
  apply (init_shows_the_latest
           {[json_name "2024-01-01" := Json (undated "a");
             json_name "2024-01-02" := Json (undated "b")]}
           ∅ Unreachable).
  change (UI.textual {["2024-01-01" := undated "a";
                       "2024-01-02" := undated "b"]}).
  apply UI_textual_insert; [reflexivity|].
  apply UI_textual_singleton. reflexivity.
Defined.

Lemma non_text_content_is_refused_witness :
  let ui :=
    viewing (holding {["2024-01-01" := {["content" := JNum 5]}]})
      ["2024-01-01"] 0 in
  UI.load_current_entry ui = (UI.Raised UI.TypeError, ui)
  ∧ UI.step (H := naive_iso) UI.Key_e ui = (UI.Raised UI.TypeError, ui)
  ∧ (UI.edit_mode ui = false →
     ∀ now post,
       UI.step (H := naive_iso) (UI.Key_enter now post) ui
       = (UI.Raised UI.TypeError, ui))
  ∧ (UI.edit_mode ui = true →
     UI.step (H := naive_iso) UI.Key_escape ui
     = (UI.Raised UI.TypeError,
        UI.Ui (UI.journal ui) (UI.entries_list ui) (UI.selected_index ui)
          false (UI.status_message ui) (UI.text ui) (UI.read_only ui))).
Proof.
  apply (non_text_content_is_refused (H := naive_iso)
           (viewing (holding {["2024-01-01" := {["content" := JNum 5]}]})
              ["2024-01-01"] 0)
           "2024-01-01" {["content" := JNum 5]}).
  - done.
  - reflexivity.
  - reflexivity.
  - reflexivity.
Defined.
